(** * Style compilation of vuelayers: a heap model of [ol-ext/style.js]

    The module turns a flat [VlStyle] record into the style objects of the
    rendering library.  Records and library objects live in a heap, since
    several functions hand back the very object they were given and one
    family of functions assigns to a property of its argument.

    What the module imports comes as parameters: the colour parser, the
    numeric test, the conversion to strings, and the assertions of the
    [Icon] constructor, which can make a compilation throw. *)

From stdpp Require Import base list strings.
From Stdlib Require Import Ascii QArith.

Close Scope Q_scope.

Open Scope string_scope.
Open Scope list_scope.

(** ** Values *)

Abbreviation loc := nat.

(** A JavaScript number, kept abstract enough for what the module asks of
    it: whether it is a number and whether it is truthy. *)
Inductive number :=
| NaN
| Inf (negative : bool)
| Fin (q : Q).

(** Classes of [ol/style] the module constructs or tests with
    [instanceof]. *)
Inductive class :=
| CFill | CStroke | CImage | CIcon | CRegularShape | CCircle | CText | CStyle.

(** Functions are opaque, apart from the wrapper [createGeomStyle]
    builds around the record it closes over. *)
Inductive func :=
| FExternal (id : nat)
| FStyleGeom (vlStyle : loc).

(** Arrays are values here: the model tells an array by its elements and
    not by its identity, so that an array and a copy of it are the same
    value.  Records and the objects of the library have an identity. *)
#[warnings="-register-all"]
Inductive value :=
| VUndefined
| VNull
| VBool (b : bool)
| VNum (n : number)
| VStr (s : string)
| VArr (xs : list value)
| VFun (f : func)
| VRef (l : loc).

(** Own enumerable properties in insertion order. *)
Abbreviation props := (list (string * value)).

(** An object is a plain record or an instance built by the rendering
    library.  An instance remembers the options it was built from; the
    library keeps them in fields of its own, so an instance is never an
    object without keys.  [own] holds what was assigned on it afterwards. *)
Inductive obj :=
| Plain (ps : props)
| Instance (c : class) (opts : props) (own : props).

Abbreviation heap := (list obj).

(** What is thrown: an [Error] of the module, an [AssertionError] of the
    rendering library with its code, or the mark of a construct outside
    the model. *)
Inductive error :=
| JsError (message : string)
| AssertionError (code : nat)
| Unmodelled (what : string).

(** ** Property lists *)

Fixpoint plookup (k : string) (ps : props) : option value :=
  match ps with
  | [] => None
  | (k', v) :: ps' => if String.eqb k k' then Some v else plookup k ps'
  end.

Definition pget (ps : props) (k : string) : value :=
  default VUndefined (plookup k ps).

(** [o[k] = v]: an existing key keeps its place, a new one goes last. *)
Fixpoint pset (k : string) (v : value) (ps : props) : props :=
  match ps with
  | [] => [(k, v)]
  | (k', v') :: ps' =>
      if String.eqb k k' then (k, v) :: ps' else (k', v') :: pset k v ps'
  end.

Definition pset_all (src : props) (ps : props) : props :=
  fold_left (fun acc kv => pset kv.1 kv.2 acc) src ps.

Definition pkeys (ps : props) : list string := map fst ps.

Definition includes (ks : list string) (k : string) : bool :=
  existsb (String.eqb k) ks.

(** ** Reading the heap *)

Definition own_props (o : obj) : props :=
  match o with
  | Plain ps => ps
  | Instance _ _ own => own
  end.

(** A location outside the heap reads as an object without properties. *)
Definition heap_props (h : heap) (l : loc) : props :=
  match h !! l with
  | Some o => own_props o
  | None => []
  end.

Definition heap_get (h : heap) (l : loc) (k : string) : value :=
  pget (heap_props h l) k.

Definition heap_set (l : loc) (k : string) (v : value) (h : heap) : heap :=
  match h !! l with
  | Some (Plain ps) => <[l := Plain (pset k v ps)]> h
  | Some (Instance c opts own) => <[l := Instance c opts (pset k v own)]> h
  | None => h
  end.

Definition heap_assign (target : loc) (src : props) (h : heap) : heap :=
  match h !! target with
  | Some (Plain ps) => <[target := Plain (pset_all src ps)]> h
  | Some (Instance c opts own) => <[target := Instance c opts (pset_all src own)]> h
  | None => h
  end.

(** [!Object.keys(x).length] on an object. *)
Definition no_keys (h : heap) (l : loc) : bool :=
  match h !! l with
  | Some (Plain []) => true
  | Some _ => false
  | None => true
  end.

(** [Circle] extends [RegularShape]; [RegularShape] and [Icon] extend
    the image style. *)
Definition subclass (c d : class) : bool :=
  match c, d with
  | CFill, CFill | CStroke, CStroke | CText, CText | CStyle, CStyle => true
  | CImage, CImage | CIcon, CIcon | CRegularShape, CRegularShape
  | CCircle, CCircle => true
  | (CIcon | CRegularShape | CCircle), CImage => true
  | CCircle, CRegularShape => true
  | _, _ => false
  end.

Definition instance_of (h : heap) (v : value) (c : class) : bool :=
  match v with
  | VRef l =>
      match h !! l with
      | Some (Instance c' _ _) => subclass c' c
      | _ => false
      end
  | _ => false
  end.

Definition num_truthy (n : number) : bool :=
  match n with
  | NaN => false
  | Inf _ => true
  | Fin q => negb (Z.eqb (Qnum q) 0)
  end.

Definition truthy (v : value) : bool :=
  match v with
  | VUndefined | VNull => false
  | VBool b => b
  | VNum n => num_truthy n
  | VStr s => negb (String.eqb s "")
  | VArr _ | VFun _ | VRef _ => true
  end.

(** [x == null] *)
Definition nullish (v : value) : bool :=
  match v with
  | VUndefined | VNull => true
  | _ => false
  end.


(** [isEmpty] of the module.  Booleans and functions have no enumerable
    keys; a string or a dense array has as many as its length. *)
Definition is_empty (h : heap) (x : value) : bool :=
  match x with
  | VUndefined | VNull => true
  | VNum _ => false
  | VStr s => String.eqb s ""
  | VArr xs => match xs with [] => true | _ => false end
  | VBool _ | VFun _ => true
  | VRef l => no_keys h l
  end.

(** ** Helpers of [util/minilo] *)

(** Modelled from the spec: [hasProp] of util/minilo is not among the
    sources; an identity accessor fails on "an object lacking the expected
    identity field", so the test is whether the object has the property. *)
Definition has_prop (h : heap) (l : loc) (k : string) : bool :=
  match plookup k (heap_props h l) with
  | Some _ => true
  | None => false
  end.

(** Modelled from the spec: [isFunction] of util/minilo is not among the
    sources; it is the test [typeof value === 'function']. *)
Definition isFunction (v : value) : bool :=
  match v with
  | VFun _ => true
  | _ => false
  end.

Definition upper_ascii (c : Ascii.ascii) : Ascii.ascii :=
  let n := Ascii.N_of_ascii c in
  if (97 <=? n)%N && (n <=? 122)%N then Ascii.ascii_of_N (n - 32) else c.

Definition lower_ascii (c : Ascii.ascii) : Ascii.ascii :=
  let n := Ascii.N_of_ascii c in
  if (65 <=? n)%N && (n <=? 90)%N then Ascii.ascii_of_N (n + 32) else c.

(** Modelled from the spec: [upperFirst] of util/minilo is not among the
    sources; it puts the first character of a key in upper case, as in
    [fillColor] against [textFillColor]. *)
Definition upperFirst (s : string) : string :=
  match s with
  | EmptyString => EmptyString
  | String c r => String (upper_ascii c) r
  end.

(** Modelled from the spec: [lowerFirst] of util/minilo is not among the
    sources; it puts the first character of a key in lower case. *)
Definition lowerFirst (s : string) : string :=
  match s with
  | EmptyString => EmptyString
  | String c r => String (lower_ascii c) r
  end.

(** ** Regular expressions *)

(** The patterns the module builds are a prefix followed by [fill], [Fill],
    [stroke] or [Stroke].  The fragment modelled here has the characters
    that stand for themselves and the assertions [^] and [$], without
    flags; a pattern with another syntax character is outside it. *)
Inductive atom :=
| Char (c : Ascii.ascii)
| AtStart
| AtEnd.

Definition syntax_char (c : Ascii.ascii) : bool :=
  existsb (Ascii.eqb c) (String.list_ascii_of_string "\^$.*+?()[]{}|").

Definition atom_of (c : Ascii.ascii) : option atom :=
  if Ascii.eqb c "^"%char then Some AtStart
  else if Ascii.eqb c "$"%char then Some AtEnd
  else if syntax_char c then None
  else Some (Char c).

(** [new RegExp(pat)], when [pat] is in the fragment. *)
Fixpoint RegExp (pat : string) : option (list atom) :=
  match pat with
  | EmptyString => Some []
  | String c pat' =>
      match atom_of c, RegExp pat' with
      | Some a, Some p => Some (a :: p)
      | _, _ => None
      end
  end.

(** A match of [p] at the head of [s], [start] telling whether the head is
    the start of the input: what is left of [s] after it. *)
Fixpoint match_here (p : list atom) (start : bool) (s : string) : option string :=
  match p with
  | [] => Some s
  | AtStart :: p' => if start then match_here p' start s else None
  | AtEnd :: p' =>
      match s with
      | EmptyString => match_here p' start s
      | String _ _ => None
      end
  | Char a :: p' =>
      match s with
      | EmptyString => None
      | String b s' => if Ascii.eqb a b then match_here p' false s' else None
      end
  end.

(** [s.replace(p, '')]: the leftmost match goes, and [s] stays as it is
    when there is none. *)
Fixpoint replace_match (p : list atom) (start : bool) (s : string) : string :=
  match match_here p start s with
  | Some rest => rest
  | None =>
      match s with
      | EmptyString => EmptyString
      | String c s' => String c (replace_match p false s')
      end
  end.

(** ** Removing the match of a literal pattern *)

Fixpoint strip_prefix (p s : string) : option string :=
  match p with
  | EmptyString => Some s
  | String a p' =>
      match s with
      | EmptyString => None
      | String b s' => if Ascii.eqb a b then strip_prefix p' s' else None
      end
  end.

Fixpoint remove_first (pat s : string) : string :=
  match strip_prefix pat s with
  | Some rest => rest
  | None =>
      match s with
      | EmptyString => EmptyString
      | String c s' => String c (remove_first pat s')
      end
  end.

(** A pattern without syntax characters: every character stands for
    itself. *)
Fixpoint literal_pattern (p : string) : bool :=
  match p with
  | EmptyString => true
  | String c p' => negb (syntax_char c) && literal_pattern p'
  end.

(** ** Computations on the heap *)

Inductive outcome (A : Type) :=
| Ret (a : A) (h : heap)
| Throw (e : error) (h : heap).
Arguments Ret {A} a h.
Arguments Throw {A} e h.

Definition M (A : Type) := heap -> outcome A.

Definition ret {A} (a : A) : M A := fun h => Ret a h.

Definition bind {A B} (m : M A) (k : A -> M B) : M B :=
  fun h =>
    match m h with
    | Ret a h' => k a h'
    | Throw e h' => Throw e h'
    end.

Definition throw {A} (e : error) : M A := fun h => Throw e h.

Definition gets {A} (f : heap -> A) : M A := fun h => Ret (f h) h.

Definition modify (f : heap -> heap) : M unit := fun h => Ret tt (f h).

Notation "'let*' x := m 'in' k" := (bind m (fun x => k))
  (at level 10, x name, m at level 100, k at level 200).
Notation "'run' m 'in' k" := (bind m (fun _ => k))
  (at level 10, m at level 100, k at level 200).

Definition final_heap {A} (o : outcome A) : heap :=
  match o with
  | Ret _ h => h
  | Throw _ h => h
  end.

(** A new object takes the next free location. *)
Definition alloc (o : obj) : M loc := fun h => Ret (length h) (h ++ [o]).

Definition get (l : loc) (k : string) : M value := gets (fun h => heap_get h l k).

(** [style[name] = value] on an accumulator or record given by reference;
    the module assigns to objects only. *)
Definition set (target : value) (k : string) (v : value) : M unit :=
  match target with
  | VRef l => modify (heap_set l k v)
  | _ => ret tt
  end.

Definition isEmpty (x : value) : M bool := gets (fun h => is_empty h x).

Definition hasProp (l : loc) (k : string) : M bool := gets (fun h => has_prop h l k).

Definition instanceof (v : value) (c : class) : M bool :=
  gets (fun h => instance_of h v c).

(** [name.replace(new RegExp(pat), '')] *)
Definition replace_regexp (name pat : string) : M string :=
  match RegExp pat with
  | Some p => ret (replace_match p true name)
  | None => throw (Unmodelled "RegExp")
  end.

(** Modelled from the spec: [reduce] of util/minilo is not among the
    sources; it folds a callback over the own keys of a collection, in
    order, handing it the accumulator, the value and the key. *)
Fixpoint reduce_keys (collection : loc) (iteratee : value -> value -> string -> M value)
    (ks : list string) (acc : value) : M value :=
  match ks with
  | [] => ret acc
  | k :: ks' =>
      let* v := get collection k in
      let* acc' := iteratee acc v k in
      reduce_keys collection iteratee ks' acc'
  end.

(** Modelled from the spec: the entry point of [reduce] of util/minilo,
    which takes the keys of the collection as they are at the start. *)
Definition reduce (collection : loc) (iteratee : value -> value -> string -> M value)
    (initial : value) : M value :=
  let* ks := gets (fun h => pkeys (heap_props h collection)) in
  reduce_keys collection iteratee ks initial.

(** Modelled from the spec: [pick] of util/minilo is not among the
    sources; it copies the named properties of a record into a new one. *)
Definition pick (object : loc) (ks : list string) : M value :=
  let* picked := gets (fun h => map (fun k => (k, heap_get h object k)) ks) in
  let* p := alloc (Plain (pset_all picked [])) in
  ret (VRef p).

(** [Object.assign(target, source)] *)
Definition assign (target : value) (source : value) : M unit :=
  match target, source with
  | VRef t, VRef s =>
      let* src := gets (fun h => heap_props h s) in
      modify (heap_assign t src)
  | _, _ => ret tt
  end.

(** ** The module *)

Definition illegal_style : error := JsError "Illegal style argument".

Definition getStyleId (style : loc) : M value :=
  let* has := hasProp style "id" in
  if has then get style "id" else throw illegal_style.

Definition setStyleId (style : loc) (styleId : value) : M value :=
  let* has := hasProp style "id" in
  if has then
    run set (VRef style) "id" styleId in
    ret (VRef style)
  else throw illegal_style.

(** [uuid] is what the call [uuid()] yields when it is reached. *)
Definition initializeStyle (style : loc) (defaultStyleId : value) (uuid : string)
    : M value :=
  let* id := getStyleId style in
  run (if nullish id
       then
         run setStyleId style
               (if truthy defaultStyleId then defaultStyleId else VStr uuid) in
         ret tt
       else ret tt) in
  ret (VRef style).

Definition addPrefix (prefix : string) (str : string) : string :=
  prefix +:+ (if truthy (VStr prefix) then upperFirst str else str).
Arguments addPrefix : simpl never.

(** ** Default styles *)

(** [defaultStyle()]: an array holding one record, new at each call. *)
Definition defaultStyle : M value :=
  let* style := alloc (Plain
    [("fillColor",
      VArr [VNum (Fin 255%Q); VNum (Fin 255%Q); VNum (Fin 255%Q); VNum (Fin (2 # 5)%Q)]);
     ("strokeColor", VStr "#3399cc");
     ("strokeWidth", VNum (Fin (5 # 4)%Q));
     ("imageRadius", VNum (Fin 5%Q))]) in
  ret (VArr [VRef style]).

(** The geometry types of [ol/geom/GeometryType]; the strings that stand
    for them are the library's and come as a parameter. *)
Inductive geometry_type :=
| POINT | LINE_STRING | LINEAR_RING | POLYGON | MULTI_POINT
| MULTI_LINE_STRING | MULTI_POLYGON | GEOMETRY_COLLECTION | CIRCLE.

(** Sum, product and quotient of numbers.  On finite numbers they are
    those of the rationals, which is what the machine computes for the
    small integers and the halves the module applies them to. *)
Definition num_add (a b : number) : number :=
  match a, b with
  | NaN, _ | _, NaN => NaN
  | Inf s, Inf t => if Bool.eqb s t then Inf s else NaN
  | Inf s, Fin _ | Fin _, Inf s => Inf s
  | Fin x, Fin y => Fin (Qred (x + y))
  end.

Definition q_negative (x : Q) : bool := Z.ltb (Qnum x) 0.
Definition q_zero (x : Q) : bool := Z.eqb (Qnum x) 0.

Definition num_mul (a b : number) : number :=
  match a, b with
  | NaN, _ | _, NaN => NaN
  | Inf s, Inf t => Inf (xorb s t)
  | Inf s, Fin x | Fin x, Inf s => if q_zero x then NaN else Inf (xorb s (q_negative x))
  | Fin x, Fin y => Fin (Qred (x * y))
  end.

Definition num_div (a b : number) : number :=
  match a, b with
  | NaN, _ | _, NaN => NaN
  | Inf _, Inf _ => NaN
  | Inf s, Fin x => Inf (xorb s (q_negative x))
  | Fin _, Inf _ => Fin 0%Q
  | Fin x, Fin y =>
      if q_zero y then (if q_zero x then NaN else Inf (q_negative x))
      else Fin (Qred (x / y))
  end.

(** [a.concat(b, ...)] on arrays: an argument that is an array gives its
    elements, any other argument is an element itself. *)
Definition arr_concat (a : value) (args : list value) : M value :=
  match a with
  | VArr xs =>
      ret (VArr (xs ++ concat (map (fun b => match b with
                                              | VArr ys => ys
                                              | v => [v]
                                              end) args)))
  | _ => throw (Unmodelled "concat")
  end.

(** [defaultEditStyle()]: an object that maps geometry types to arrays of
    style records. *)
Definition defaultEditStyle (GeometryType : geometry_type -> string) : M value :=
  let* styles := alloc (Plain []) in
  let white := VArr [VNum (Fin 255%Q); VNum (Fin 255%Q); VNum (Fin 255%Q); VNum (Fin 1%Q)] in
  let blue := VArr [VNum (Fin 0%Q); VNum (Fin 153%Q); VNum (Fin 255%Q); VNum (Fin 1%Q)] in
  let width := Fin 3%Q in
  let* line1 := alloc (Plain
    [("strokeColor", white); ("strokeWidth", VNum (num_add width (Fin 2%Q)))]) in
  let* line2 := alloc (Plain [("strokeColor", blue); ("strokeWidth", VNum width)]) in
  run set (VRef styles) (GeometryType LINE_STRING) (VArr [VRef line1; VRef line2]) in
  let* ls := get styles (GeometryType LINE_STRING) in
  run set (VRef styles) (GeometryType MULTI_LINE_STRING) ls in
  let* fill := alloc (Plain
    [("fillColor",
      VArr [VNum (Fin 255%Q); VNum (Fin 255%Q); VNum (Fin 255%Q); VNum (Fin (1 # 2)%Q)])]) in
  let* ls := get styles (GeometryType LINE_STRING) in
  let* polygon := arr_concat (VArr [VRef fill]) [ls] in
  run set (VRef styles) (GeometryType POLYGON) polygon in
  let* pg := get styles (GeometryType POLYGON) in
  run set (VRef styles) (GeometryType MULTI_POLYGON) pg in
  let* pg := get styles (GeometryType POLYGON) in
  let* ls := get styles (GeometryType LINE_STRING) in
  let* circle := arr_concat pg [ls] in
  run set (VRef styles) (GeometryType CIRCLE) circle in
  let* point := alloc (Plain
    [("imageRadius", VNum (num_mul width (Fin 2%Q)));
     ("fillColor", blue);
     ("strokeColor", white);
     ("strokeWidth", VNum (num_div width (Fin 2%Q)));
     ("zIndex", VNum (Inf false))]) in
  run set (VRef styles) (GeometryType POINT) (VArr [VRef point]) in
  let* pt := get styles (GeometryType POINT) in
  run set (VRef styles) (GeometryType MULTI_POINT) pt in
  let* pg := get styles (GeometryType POLYGON) in
  let* ls := get styles (GeometryType LINE_STRING) in
  let* pt := get styles (GeometryType POINT) in
  let* collection := arr_concat pg [ls; pt] in
  run set (VRef styles) (GeometryType GEOMETRY_COLLECTION) collection in
  ret (VRef styles).

(** A sample for the parameter: the names the rendering library gives
    the geometry types. *)
Definition ol_geometry_type (g : geometry_type) : string :=
  match g with
  | POINT => "Point"
  | LINE_STRING => "LineString"
  | LINEAR_RING => "LinearRing"
  | POLYGON => "Polygon"
  | MULTI_POINT => "MultiPoint"
  | MULTI_LINE_STRING => "MultiLineString"
  | MULTI_POLYGON => "MultiPolygon"
  | GEOMETRY_COLLECTION => "GeometryCollection"
  | CIRCLE => "Circle"
  end.

Section Compilers.

(** A lemma takes the imported functions its statement mentions. *)
Set Default Proof Using "Type".

(** [parseColor(color).rgba] of the parse-color package. *)
Variable parseColor : string -> value.
(** [isNumeric] of util/minilo: a number or a numeric string. *)
Variable isNumeric : value -> bool.
(** Conversion of a value to a string, as [+] and [join] apply it. *)
Variable toStr : value -> string.
(** The [Icon] constructor of the rendering library asserts on its
    options and throws when an assertion fails: the error it throws for
    given options, if any. *)
Variable iconError : props -> option error.

(** The other constructors of the library take the options as they
    come. *)
Definition rejected (c : class) (options : props) : option error :=
  match c with
  | CIcon => iconError options
  | _ => None
  end.

(** [new C(options)]: the library reads the options record it is given. *)
Definition new (c : class) (options : value) : M value :=
  match options with
  | VRef o =>
      let* opts := gets (fun h => heap_props h o) in
      match rejected c opts with
      | Some e => throw e
      | None =>
          let* r := alloc (Instance c opts []) in
          ret (VRef r)
      end
  | _ => throw (Unmodelled "options")
  end.

Definition normalizeColor (color : value) : value :=
  match color with
  | VStr s => parseColor s
  | c => c
  end.

Definition createFillStyle (vlStyle : loc) (prefix : string) : M value :=
  let prefixKey := addPrefix prefix in
  let keys := map prefixKey ["fillColor"] in
  let compiledKey := prefixKey "fill" in
  let* compiled := get vlStyle compiledKey in
  let* isFill := instanceof compiled CFill in
  if isFill then ret compiled else
  let* acc := alloc (Plain []) in
  let* fillStyle :=
    reduce vlStyle (fun style value name =>
      if negb (includes keys name) then ret style else
      let* name := replace_regexp name (prefixKey "fill") in
      let name := lowerFirst name in
      let value := if String.eqb name "color" then normalizeColor value else value in
      run set style name value in
      ret style) (VRef acc) in
  let* empty := isEmpty fillStyle in
  if negb empty then new CFill fillStyle else ret VUndefined.

Definition createStrokeStyle (vlStyle : loc) (prefix : string) : M value :=
  let prefixKey := addPrefix prefix in
  let keys := map prefixKey
    ["strokeColor"; "strokeWidth"; "strokeMiterLimit"; "strokeCap";
     "strokeJoin"; "strokeDash"; "strokeDashOffset"] in
  let compiledKey := prefixKey "stroke" in
  let* compiled := get vlStyle compiledKey in
  let* isStroke := instanceof compiled CStroke in
  if isStroke then ret compiled else
  let* acc := alloc (Plain []) in
  let* strokeStyle :=
    reduce vlStyle (fun style value name =>
      if negb (includes keys name) then ret style else
      let* name :=
        if includes (map prefixKey ["strokeColor"; "strokeWidth"; "strokeMiterLimit"]) name
        then
          let* n := replace_regexp name (prefixKey "stroke") in
          ret (lowerFirst n)
        else if includes (map prefixKey
                  ["strokeCap"; "strokeJoin"; "strokeDash"; "strokeDashOffset"]) name
        then
          let* n := replace_regexp name (prefixKey "stroke") in
          ret ("line" +:+ n)
        else ret name in
      let value := if String.eqb name "color" then normalizeColor value else value in
      run set style name value in
      ret style) (VRef acc) in
  let* empty := isEmpty strokeStyle in
  if negb empty then new CStroke strokeStyle else ret VUndefined.

(** [a || b] on the results of two compilations. *)
Definition orElse (a b : M value) : M value :=
  let* x := a in
  if truthy x then ret x else b.

Definition createImageStyle (vlStyle : loc) : M value :=
  let* imageSrc := get vlStyle "imageSrc" in
  let* image := get vlStyle "image" in
  let* imagePoints := get vlStyle "imagePoints" in
  let* imageRadius := get vlStyle "imageRadius" in
  let* e1 := isEmpty imageSrc in
  let* e2 := isEmpty image in
  let* e3 := isEmpty imagePoints in
  if e1 && e2 && e3 && negb (isNumeric imageRadius) then ret VUndefined else
  let* isImage := instanceof image CImage in
  if isImage then ret image else
  let* spread := gets (fun h => heap_props h vlStyle) in
  let* rd := gets (fun h => heap_get h vlStyle) in
  let* choice :=
    if negb e1 || negb e2 then
      let* o := alloc (Plain (pset_all
        [("anchor", rd "imageAnchor");
         ("anchorOrigin", rd "imageAnchorOrigin");
         ("color", rd "imageColor");
         ("offset", rd "imageOffset");
         ("offsetOrigin", rd "imageOffsetOrigin");
         ("opacity", rd "imageOpacity");
         ("scale", rd "imageScale");
         ("rotation", rd "imageRotation");
         ("size", rd "imageSize");
         ("img", rd "image");
         ("imgSize", rd "imageImgSize");
         ("src", rd "imageSrc");
         ("crossOrigin", rd "imageCrossOrigin")] spread)) in
      ret (CIcon, o)
    else if negb (nullish imagePoints) then
      let* o := alloc (Plain (pset_all
        [("points", rd "imagePoints");
         ("radius", rd "imageRadius");
         ("radius1", rd "imageRadius1");
         ("radius2", rd "imageRadius2");
         ("angle", rd "imageAngle");
         ("rotation", rd "imageRotation")] spread)) in
      ret (CRegularShape, o)
    else
      let* o := alloc (Plain (pset_all [("radius", rd "imageRadius")] spread)) in
      ret (CCircle, o) in
  let Ctor := choice.1 in
  let* first := gets (fun h => heap_props h choice.2) in
  let* fill := orElse (createFillStyle vlStyle "image") (createFillStyle vlStyle "") in
  let* stroke := orElse (createStrokeStyle vlStyle "image") (createStrokeStyle vlStyle "") in
  let* imageStyle := alloc (Plain (pset_all
    [("fill", fill); ("stroke", stroke); ("snapToPixel", VBool true)] first)) in
  let* empty := isEmpty (VRef imageStyle) in
  if negb empty then new Ctor (VRef imageStyle) else ret VUndefined.

Definition createTextStyle (vlStyle : loc) : M value :=
  let* text := get vlStyle "text" in
  if nullish text then ret VUndefined else
  let* isText := instanceof text CText in
  if isText then ret text else
  let* textStyle := alloc (Plain [("text", text)]) in
  let* rd := gets (fun h => heap_get h vlStyle) in
  let fontSize :=
    if truthy (rd "textFontSize")
    then VStr (toStr (rd "textFontSize") +:+ "px") else VUndefined in
  let font :=
    VStr (String.concat " "
      (map toStr (filter (fun x => truthy x = true)
                    [VStr "normal"; fontSize; rd "textFont"]))) in
  let* picked := pick vlStyle ["textAlign"; "textBaseline"] in
  let* fill := orElse (createFillStyle vlStyle "text") (createFillStyle vlStyle "") in
  let* stroke := orElse (createStrokeStyle vlStyle "text") (createStrokeStyle vlStyle "") in
  let* backgroundFill := createFillStyle vlStyle "textBackground" in
  let* backgroundStroke := createStrokeStyle vlStyle "textBackground" in
  let* rest := alloc (Plain (pset_all
    [("font", font);
     ("fill", fill);
     ("stroke", stroke);
     ("scale", rd "textScale");
     ("rotation", rd "textRotation");
     ("offsetX", rd "textOffsetX");
     ("offsetY", rd "textOffsetY");
     ("rotateWithView", rd "textRotateWithView");
     ("padding", rd "textPadding");
     ("maxAngle", rd "textMaxAngle");
     ("overflow", rd "textOverflow");
     ("placement", rd "textPlacement");
     ("backgroundFill", backgroundFill);
     ("backgroundStroke", backgroundStroke)] [])) in
  run assign (VRef textStyle) picked in
  run assign (VRef textStyle) (VRef rest) in
  let* empty := isEmpty (VRef textStyle) in
  if negb empty then new CText (VRef textStyle) else ret VUndefined.

Definition createGeomStyle (vlStyle : loc) : M value :=
  let* geom := get vlStyle "geom" in
  if isFunction geom then ret (VFun (FStyleGeom vlStyle)) else ret geom.

Definition createStyle (vlStyle : loc) : M value :=
  let* empty := isEmpty (VRef vlStyle) in
  if empty then ret VUndefined else
  let* text := createTextStyle vlStyle in
  let* fill := createFillStyle vlStyle "" in
  let* stroke := createStrokeStyle vlStyle "" in
  let* image := createImageStyle vlStyle in
  let* geometry := createGeomStyle vlStyle in
  let* zIndex := get vlStyle "zIndex" in
  let* renderer := get vlStyle "renderer" in
  let* olStyle := alloc (Plain (pset_all
    [("text", text); ("fill", fill); ("stroke", stroke); ("image", image);
     ("geometry", geometry); ("zIndex", zIndex); ("renderer", renderer)] [])) in
  let* empty' := isEmpty (VRef olStyle) in
  if negb empty' then new CStyle (VRef olStyle) else ret VUndefined.

(** ** What a compilation yields, read off the record *)

(** The flat stroke keys and the names the library gives them. *)
Definition stroke_aliases : list (string * string) :=
  [("strokeColor", "color");
   ("strokeWidth", "width");
   ("strokeMiterLimit", "miterLimit");
   ("strokeCap", "lineCap");
   ("strokeJoin", "lineJoin");
   ("strokeDash", "lineDash");
   ("strokeDashOffset", "lineDashOffset")].

Definition stroke_alias (prefix name : string) : option string :=
  snd <$> find (fun p => String.eqb name (addPrefix prefix p.1)) stroke_aliases.

Definition fill_alias (prefix name : string) : option string :=
  if String.eqb name (addPrefix prefix "fillColor") then Some "color" else None.

(** The value stored under an option name: a colour is normalised. *)
Definition entry (name : string) (v : value) : value :=
  if String.eqb name "color" then normalizeColor v else v.

Definition collect (target : string -> option string) (ps acc : props) (k : string)
    : props :=
  match target k with
  | Some n => pset n (entry n (pget ps k)) acc
  | None => acc
  end.

(** The options gathered from a record, key by key in its own order. *)
Definition options_of (target : string -> option string) (ps : props) : props :=
  fold_left (collect target ps) (pkeys ps) [].

(** The fill has one option, the colour. *)
Definition fill_options (prefix : string) (ps : props) : props :=
  match plookup (addPrefix prefix "fillColor") ps with
  | Some v => [("color", normalizeColor v)]
  | None => []
  end.

Definition stroke_options (prefix : string) (ps : props) : props :=
  options_of (stroke_alias prefix) ps.

(** The option name a key of the record is given when the pattern built
    from the prefix is [p], whatever the prefix. *)
Definition fill_name (p : list atom) (prefix name : string) : option string :=
  if includes (map (addPrefix prefix) ["fillColor"]) name
  then Some (lowerFirst (replace_match p true name))
  else None.

Definition stroke_name (p : list atom) (prefix name : string) : option string :=
  if includes (map (addPrefix prefix)
       ["strokeColor"; "strokeWidth"; "strokeMiterLimit"]) name
  then Some (lowerFirst (replace_match p true name))
  else if includes (map (addPrefix prefix)
            ["strokeCap"; "strokeJoin"; "strokeDash"; "strokeDashOffset"]) name
  then Some ("line" +:+ replace_match p true name)
  else None.

(** One step of a renaming reducer on the accumulator [style]. *)
Definition apply_target (target : string -> option string)
    (style v : value) (k : string) : M value :=
  match target k with
  | Some n => run set style n (entry n v) in ret style
  | None => ret style
  end.

(** The three ways a sub-style comes about. *)
Inductive compiled :=
| Reused (v : value)
| Built (c : class) (opts : props)
| Absent.

Definition compiled_view (c : class) (h : heap) (stored : value) (opts : props)
    : compiled :=
  if instance_of h stored c then Reused stored
  else match opts with
       | [] => Absent
       | _ => Built c opts
       end.

Definition fill_view (h : heap) (vlStyle : loc) (prefix : string) : compiled :=
  compiled_view CFill h (heap_get h vlStyle (addPrefix prefix "fill"))
    (fill_options prefix (heap_props h vlStyle)).

Definition stroke_view (h : heap) (vlStyle : loc) (prefix : string) : compiled :=
  compiled_view CStroke h (heap_get h vlStyle (addPrefix prefix "stroke"))
    (stroke_options prefix (heap_props h vlStyle)).

(** [a || b] on what two compilations yield. *)
Definition or_view (d1 d2 : compiled) : compiled :=
  match d1 with
  | Absent => d2
  | _ => d1
  end.

(** The value [v] in heap [h'] is the sub-style [d], a built one being an
    object that was not there in [h]. *)
Definition denotes (h h' : heap) (v : value) (d : compiled) : Prop :=
  match d with
  | Reused c => v = c
  | Absent => v = VUndefined
  | Built c opts =>
      exists r, v = VRef r /\ length h <= r /\ h' !! r = Some (Instance c opts [])
  end.

(** References stored in a record point into the heap. *)
Definition closed_value (h : heap) (v : value) : Prop :=
  match v with
  | VRef l => l < length h
  | _ => True
  end.

Definition closed_record (h : heap) (l : loc) : Prop :=
  forall k, closed_value h (heap_get h l k).

(** What running a compiler from [h] comes to, given the sub-style. *)
Definition run_view (h : heap) (d : compiled) : outcome value :=
  match d with
  | Reused c => Ret c h
  | Absent => Ret VUndefined (h ++ [Plain []])
  | Built c opts => Ret (VRef (S (length h))) (h ++ [Plain opts; Instance c opts []])
  end.

(** [respects h0 m Q]: run from any heap that extends [h0], the computation
    [m] ends in a heap that still extends [h0], objects only being added
    or written beyond [h0]; a result satisfies [Q]. *)
Definition respects (h0 : heap) {A} (m : M A) (Q : A -> Prop) : Prop :=
  forall h, h0 `prefix_of` h ->
    match m h with
    | Ret a h' => h0 `prefix_of` h' /\ Q a
    | Throw _ h' => h0 `prefix_of` h'
    end.

(** ** The options of a text and of an image, read off the record *)

(** The font of a text: [normal], the size in pixels and the family, those
    of them that are truthy. *)
Definition text_font (rd : string -> value) : value :=
  VStr (String.concat " "
    (map toStr (filter (fun x => truthy x = true)
       [VStr "normal";
        if truthy (rd "textFontSize")
        then VStr (toStr (rd "textFontSize") +:+ "px") else VUndefined;
        rd "textFont"]))).

(** The options a text is built from, [rd] reading the record. *)
Definition text_options (rd : string -> value)
    (fill stroke backgroundFill backgroundStroke : value) : props :=
  [("text", rd "text");
   ("textAlign", rd "textAlign");
   ("textBaseline", rd "textBaseline");
   ("font", text_font rd);
   ("fill", fill);
   ("stroke", stroke);
   ("scale", rd "textScale");
   ("rotation", rd "textRotation");
   ("offsetX", rd "textOffsetX");
   ("offsetY", rd "textOffsetY");
   ("rotateWithView", rd "textRotateWithView");
   ("padding", rd "textPadding");
   ("maxAngle", rd "textMaxAngle");
   ("overflow", rd "textOverflow");
   ("placement", rd "textPlacement");
   ("backgroundFill", backgroundFill);
   ("backgroundStroke", backgroundStroke)].

(** The flat text keys and the option names they are given. *)
Definition text_aliases : list (string * string) :=
  [("text", "text");
   ("textAlign", "textAlign");
   ("textBaseline", "textBaseline");
   ("textScale", "scale");
   ("textRotation", "rotation");
   ("textOffsetX", "offsetX");
   ("textOffsetY", "offsetY");
   ("textRotateWithView", "rotateWithView");
   ("textPadding", "padding");
   ("textMaxAngle", "maxAngle");
   ("textOverflow", "overflow");
   ("textPlacement", "placement")].

(** The flat image keys and the option names they are given, for each of
    the three constructors. *)
Definition icon_aliases : list (string * string) :=
  [("imageAnchor", "anchor");
   ("imageAnchorOrigin", "anchorOrigin");
   ("imageColor", "color");
   ("imageOffset", "offset");
   ("imageOffsetOrigin", "offsetOrigin");
   ("imageOpacity", "opacity");
   ("imageScale", "scale");
   ("imageRotation", "rotation");
   ("imageSize", "size");
   ("image", "img");
   ("imageImgSize", "imgSize");
   ("imageSrc", "src");
   ("imageCrossOrigin", "crossOrigin")].

Definition shape_aliases : list (string * string) :=
  [("imagePoints", "points");
   ("imageRadius", "radius");
   ("imageRadius1", "radius1");
   ("imageRadius2", "radius2");
   ("imageAngle", "angle");
   ("imageRotation", "rotation")].

Definition circle_aliases : list (string * string) := [("imageRadius", "radius")].

Definition image_aliases (c : class) : list (string * string) :=
  match c with
  | CIcon => icon_aliases
  | CRegularShape => shape_aliases
  | _ => circle_aliases
  end.

(** The constructor the image compiler settles on. *)
Definition image_ctor (h : heap) (vlStyle : loc) : class :=
  if negb (is_empty h (heap_get h vlStyle "imageSrc"))
     || negb (is_empty h (heap_get h vlStyle "image")) then CIcon
  else if negb (nullish (heap_get h vlStyle "imagePoints")) then CRegularShape
  else CCircle.

(** The options an image is built from: the record itself, the aliased
    keys over it, then the fill, the stroke and [snapToPixel]. *)
Definition image_options (h : heap) (vlStyle : loc) (fill stroke : value) : props :=
  pset_all [("fill", fill); ("stroke", stroke); ("snapToPixel", VBool true)]
    (pset_all
       (map (fun p => (p.2, heap_get h vlStyle p.1)) (image_aliases (image_ctor h vlStyle)))
       (heap_props h vlStyle)).

(** ** The claim of memoisation, and sample records *)

(** The compiler [compile] caches what it returns on the record
    [vlStyle] of heap [h], under [compiledKey]. *)
Definition memoizes (compile : M value) (vlStyle : loc) (compiledKey : string)
    (h : heap) : Prop :=
  forall v h', compile h = Ret v h' -> v <> VUndefined ->
    heap_get h' vlStyle compiledKey = v.

(** The claim of renaming, as stated for every prefix: a stroke that
    [compile] builds from the properties [ps] holds, under each alias, the
    value of the prefixed flat key, the colour normalised. *)
Definition renames (compile : M value) (ps : props) (prefix : string) (h : heap)
    : Prop :=
  forall r h' opts own,
    compile h = Ret (VRef r) h' -> h' !! r = Some (Instance CStroke opts own) ->
    forall k a, In (k, a) stroke_aliases ->
      plookup a opts = entry a <$> plookup (addPrefix prefix k) ps.

(** The claim of dispatch, as stated: [compile] hands back a new instance
    of class [c]. *)
Definition constructs (compile : M value) (c : class) (h : heap) : Prop :=
  exists r h' opts, compile h = Ret (VRef r) h' /\ h' !! r = Some (Instance c opts []).

Definition red : value :=
  VArr [VNum (Fin 255%Q); VNum (Fin 0%Q); VNum (Fin 0%Q); VNum (Fin 1%Q)].

(** Sample stand-ins for the three functions the module imports. *)
Definition parseColor_red (s : string) : value := red.

Definition isNumeric_number (v : value) : bool :=
  match v with
  | VNum (Fin _) => true
  | _ => false
  end.

Definition toStr_string (v : value) : string :=
  match v with
  | VStr s => s
  | _ => ""
  end.

(** A sample for the [Icon] constructor, after its three assertions: [img]
    and [src] do not come together (4), [imgSize] comes with [img] (5),
    and there is an [img] or a [src] that is not empty (6). *)
Definition iconError_sample (options : props) : option error :=
  let img := pget options "img" in
  let src := pget options "src" in
  if negb (match src with VUndefined => true | _ => false end) && truthy img
  then Some (AssertionError 4)
  else if truthy img && negb (truthy (pget options "imgSize"))
  then Some (AssertionError 5)
  else if truthy img then None
  else match src with
       | VStr (String _ _) => None
       | _ => Some (AssertionError 6)
       end.

(** [{ foo: 1 }] *)
Definition heap_foo : heap := [Plain [("foo", VNum (Fin 1%Q))]].

(** [{ fillColor: 'red', strokeWidth: 2, text: 'hi', imageRadius: 5 }] *)
Definition heap_flat : heap :=
  [Plain [("fillColor", VStr "red"); ("strokeWidth", VNum (Fin 2%Q));
          ("text", VStr "hi"); ("imageRadius", VNum (Fin 5%Q))]].

(** A record at location 4 whose sub-styles were compiled beforehand. *)
Definition heap_compiled : heap :=
  [Instance CFill [("color", red)] [];
   Instance CStroke [("width", VNum (Fin 2%Q))] [];
   Instance CCircle [("radius", VNum (Fin 5%Q))] [];
   Instance CText [("text", VStr "hi")] [];
   Plain [("textFill", VRef 0); ("textStroke", VRef 1);
          ("image", VRef 2); ("text", VRef 3)]].

(** [{ id: undefined }] and [{ name: 'a' }] *)
Definition heap_ids : heap :=
  [Plain [("id", VUndefined)]; Plain [("name", VStr "a")]].

(** [{ strokeWidth: undefined }] *)
Definition heap_undefined : heap := [Plain [("strokeWidth", VUndefined)]].

Definition blue : value :=
  VArr [VNum (Fin 0%Q); VNum (Fin 0%Q); VNum (Fin 255%Q); VNum (Fin 1%Q)].

(** [{ text: 'hi', textFillColor: [0, 0, 255, 1], fillColor: 'red',
       strokeWidth: 2, imageStrokeWidth: 3, imageRadius: 5 }] *)
Definition heap_prefixed : heap :=
  [Plain [("text", VStr "hi"); ("textFillColor", blue); ("fillColor", VStr "red");
          ("strokeWidth", VNum (Fin 2%Q)); ("imageStrokeWidth", VNum (Fin 3%Q));
          ("imageRadius", VNum (Fin 5%Q))]].

(** [{ $StrokeColor: 'red' }], for the prefix [$]. *)
Definition heap_dollar : heap := [Plain [("$StrokeColor", VStr "red")]].

(** [{ image: 'x' }] and [{ imageSrc: 'a.png' }] *)
Definition heap_icon : heap := [Plain [("image", VStr "x")]].

Definition heap_src : heap := [Plain [("imageSrc", VStr "a.png")]].

(** * Properties *)

(** ** Property lists *)

Lemma plookup_pset_eq k v ps : plookup k (pset k v ps) = Some v.
Proof.
  induction ps as [|[k' v'] ps IH]; simpl.
  - by rewrite String.eqb_refl.
  - destruct (String.eqb k k') eqn:E; simpl.
    + by rewrite String.eqb_refl.
    + by rewrite E.
Qed.

Lemma plookup_pset_ne k k' v ps : k <> k' -> plookup k' (pset k v ps) = plookup k' ps.
Proof.
  intros Hne. induction ps as [|[k0 v0] ps IH]; simpl.
  - apply String.eqb_neq in Hne. by rewrite String.eqb_sym, Hne.
  - destruct (String.eqb k k0) eqn:E; simpl.
    + apply String.eqb_eq in E. subst k0.
      assert (String.eqb k' k = false) as ->; [|done].
      apply String.eqb_neq. congruence.
    + by rewrite IH.
Qed.

Lemma pset_not_nil k v ps : pset k v ps <> [].
Proof. destruct ps as [|[k' v'] ps]; simpl; [done|]. by destruct (String.eqb k k'). Qed.

Lemma pset_all_not_nil src ps : src <> [] -> pset_all src ps <> [].
Proof.
  unfold pset_all. revert ps. induction src as [|kv src IH]; intros ps H; [done|].
  simpl. destruct src as [|kv' src].
  - simpl. apply pset_not_nil.
  - apply IH. done.
Qed.

Lemma plookup_pkeys k ps : In k (pkeys ps) <-> is_Some (plookup k ps).
Proof.
  induction ps as [|[k' v'] ps IH]; simpl.
  - split; [done|]. by intros [? ?].
  - destruct (String.eqb k k') eqn:E.
    + apply String.eqb_eq in E. split; eauto.
    + apply String.eqb_neq in E. rewrite <- IH. split; [|by right].
      intros [?|?]; [congruence|done].
Qed.

(** ** Strings *)

Lemma append_cons a s t : String a s +:+ t = String a (s +:+ t).
Proof. reflexivity. Qed.

Lemma append_assoc s t u : (s +:+ t) +:+ u = s +:+ (t +:+ u).
Proof.
  induction s as [|a s IH]; [done|]. rewrite !append_cons. by rewrite IH.
Qed.

Lemma strip_prefix_app p s : strip_prefix p (p +:+ s) = Some s.
Proof.
  induction p as [|a p IH]; [done|].
  rewrite append_cons. simpl. by rewrite Ascii.eqb_refl.
Qed.

Lemma remove_first_app p s : remove_first p (p +:+ s) = s.
Proof.
  destruct (p +:+ s) eqn:E; simpl; rewrite <- E, strip_prefix_app; done.
Qed.

Lemma atom_of_literal c : syntax_char c = false -> atom_of c = Some (Char c).
Proof.
  unfold atom_of, syntax_char. cbn [String.list_ascii_of_string existsb].
  intros H. rewrite H. rewrite !orb_false_iff in H.
  by destruct H as (_ & -> & -> & _).
Qed.

Lemma RegExp_literal pat :
  literal_pattern pat = true ->
  RegExp pat = Some (map Char (String.list_ascii_of_string pat)).
Proof.
  induction pat as [|c pat IH]; [done|]. simpl.
  intros [Hc Hp]%andb_true_iff. apply negb_true_iff in Hc.
  by rewrite (atom_of_literal c Hc), (IH Hp).
Qed.

Lemma match_here_literal pat start s :
  match_here (map Char (String.list_ascii_of_string pat)) start s = strip_prefix pat s.
Proof.
  revert start s. induction pat as [|a pat IH]; intros start s; [done|].
  simpl. destruct s as [|b s]; [done|]. by rewrite IH.
Qed.

Lemma replace_match_literal pat start s :
  replace_match (map Char (String.list_ascii_of_string pat)) start s = remove_first pat s.
Proof.
  revert start. induction s as [|c s IH]; intros start.
  - simpl. by rewrite match_here_literal.
  - cbn [replace_match remove_first]. rewrite match_here_literal.
    destruct (strip_prefix pat (String c s)); [done|]. by rewrite IH.
Qed.

(** On a pattern without syntax characters the leftmost occurrence of the
    pattern goes. *)
Lemma replace_regexp_literal name pat :
  literal_pattern pat = true -> replace_regexp name pat = ret (remove_first pat name).
Proof.
  intros Hlit. unfold replace_regexp.
  by rewrite (RegExp_literal pat Hlit), replace_match_literal.
Qed.

Lemma literal_pattern_app s t :
  literal_pattern (s +:+ t) = literal_pattern s && literal_pattern t.
Proof.
  induction s as [|a s IH]; [done|].
  rewrite append_cons. simpl. rewrite IH. by rewrite andb_assoc.
Qed.

Lemma addPrefix_app prefix a s t :
  addPrefix prefix (String a s +:+ t) = addPrefix prefix (String a s) +:+ t.
Proof.
  unfold addPrefix. destruct (truthy (VStr prefix)).
  - rewrite append_cons. simpl. by rewrite append_assoc.
  - by rewrite append_assoc.
Qed.

Lemma remove_first_addPrefix prefix a s t :
  remove_first (addPrefix prefix (String a s)) (addPrefix prefix (String a s +:+ t)) = t.
Proof. rewrite addPrefix_app. apply remove_first_app. Qed.

Lemma literal_addPrefix prefix s :
  literal_pattern prefix = true -> literal_pattern s = true ->
  literal_pattern (upperFirst s) = true ->
  literal_pattern (addPrefix prefix s) = true.
Proof.
  intros Hp Hs Hu. unfold addPrefix. rewrite literal_pattern_app, Hp.
  by destruct (truthy (VStr prefix)).
Qed.

(** ** The heap *)

Lemma heap_props_app_l (h k : heap) l : l < length h -> heap_props (h ++ k) l = heap_props h l.
Proof. intros H. unfold heap_props. by rewrite lookup_app_l. Qed.

Lemma heap_props_prefix (h h' : heap) l :
  h `prefix_of` h' -> l < length h -> heap_props h' l = heap_props h l.
Proof. intros [k ->]. apply heap_props_app_l. Qed.

Lemma heap_props_insert_ne (h : heap) a o l :
  a <> l -> heap_props (<[a := o]> h) l = heap_props h l.
Proof. intros H. unfold heap_props. by rewrite list_lookup_insert_ne. Qed.

Lemma heap_set_plain (h : heap) a ps k v :
  h !! a = Some (Plain ps) -> heap_set a k v h = <[a := Plain (pset k v ps)]> h.
Proof. intros H. unfold heap_set. by rewrite H. Qed.

Lemma prefix_insert_ge (h0 h : heap) a o :
  h0 `prefix_of` h -> length h0 <= a -> h0 `prefix_of` <[a := o]> h.
Proof.
  intros [k ->] Hle. exists (<[a - length h0 := o]> k).
  by rewrite insert_app_r_alt.
Qed.

Lemma heap_set_prefix (h0 h : heap) a k v :
  h0 `prefix_of` h -> length h0 <= a -> h0 `prefix_of` heap_set a k v h.
Proof.
  intros Hp Hle. unfold heap_set.
  destruct (h !! a) as [[ps|c opts own]|]; auto using prefix_insert_ge.
Qed.

Lemma heap_assign_prefix (h0 h : heap) a src :
  h0 `prefix_of` h -> length h0 <= a -> h0 `prefix_of` heap_assign a src h.
Proof.
  intros Hp Hle. unfold heap_assign.
  destruct (h !! a) as [[ps|c opts own]|]; auto using prefix_insert_ge.
Qed.

Lemma instance_of_prefix (h h' : heap) l c :
  h `prefix_of` h' -> l < length h -> instance_of h' (VRef l) c = instance_of h (VRef l) c.
Proof. intros [k ->] Hl. simpl. by rewrite lookup_app_l. Qed.

(** ** Computations that leave the objects they found alone *)

Lemma respects_ret h0 {A} (a : A) (Q : A -> Prop) : Q a -> respects h0 (ret a) Q.
Proof. intros HQ h Hh. by simpl. Qed.

Lemma respects_throw h0 {A} e (Q : A -> Prop) : respects h0 (throw e) Q.
Proof. intros h Hh. by simpl. Qed.

Lemma respects_bind h0 {A B} (m : M A) (k : A -> M B) P Q :
  respects h0 m P -> (forall a, P a -> respects h0 (k a) Q) ->
  respects h0 (bind m k) Q.
Proof.
  intros Hm Hk h Hh. unfold bind. specialize (Hm h Hh).
  destruct (m h) as [a h'|e h']; [|done].
  destruct Hm as [Hp HP]. by apply Hk.
Qed.

Lemma respects_weaken h0 {A} (m : M A) (P Q : A -> Prop) :
  respects h0 m P -> (forall a, P a -> Q a) -> respects h0 m Q.
Proof.
  intros Hm HPQ h Hh. specialize (Hm h Hh).
  destruct (m h); [|done]. destruct Hm. auto.
Qed.

Lemma respects_gets h0 {A} (f : heap -> A) : respects h0 (gets f) (fun _ => True).
Proof. intros h Hh. by simpl. Qed.

Lemma respects_alloc h0 o : respects h0 (alloc o) (fun l => length h0 <= l).
Proof.
  intros h Hh. simpl. split.
  - by apply prefix_app_r.
  - by apply prefix_length.
Qed.

Lemma respects_set h0 a k v :
  length h0 <= a -> respects h0 (set (VRef a) k v) (fun _ => True).
Proof. intros Ha h Hh. simpl. split; [|done]. by apply heap_set_prefix. Qed.

Lemma respects_assign h0 a src :
  length h0 <= a -> respects h0 (assign (VRef a) src) (fun _ => True).
Proof.
  intros Ha h Hh. destruct src; simpl; try done.
  split; [|done]. by apply heap_assign_prefix.
Qed.

Lemma respects_new h0 c v : respects h0 (new c v) (fun _ => True).
Proof.
  intros h Hh. destruct v; simpl; try done.
  unfold bind. simpl. destruct (rejected c _); simpl; [done|].
  split; [|done]. by apply prefix_app_r.
Qed.

Lemma respects_reduce_keys h0 vl cb a ks :
  (forall v k, respects h0 (cb (VRef a) v k) (fun r => r = VRef a)) ->
  respects h0 (reduce_keys vl cb ks (VRef a)) (fun r => r = VRef a).
Proof.
  intros Hcb. induction ks as [|k ks IH]; simpl.
  - by apply respects_ret.
  - eapply respects_bind; [apply respects_gets|]. intros v _.
    eapply respects_bind; [apply Hcb|]. by intros r ->.
Qed.

Lemma respects_replace_regexp h0 name pat :
  respects h0 (replace_regexp name pat) (fun _ => True).
Proof.
  unfold replace_regexp. destruct (RegExp pat).
  - by apply respects_ret.
  - apply respects_throw.
Qed.

Lemma respects_bind_any h0 {A B} (m : M A) (k : A -> M B) Q :
  respects h0 m (fun _ => True) -> (forall a, respects h0 (k a) Q) ->
  respects h0 (bind m k) Q.
Proof. intros Hm Hk. eapply respects_bind; [apply Hm|]. intros a _. apply Hk. Qed.

Ltac respects_step :=
  lazymatch goal with
  | |- respects _ (bind (alloc _) _) _ =>
      eapply respects_bind; [apply respects_alloc|intros ? ?]
  | |- respects _ (bind _ _) _ => apply respects_bind_any; [|intros ?]
  | |- respects _ (ret _) _ => apply respects_ret; try done
  | |- respects _ (throw _) _ => apply respects_throw
  | |- respects _ (gets _) _ => apply respects_gets
  | |- respects _ (get _ _) _ => apply respects_gets
  | |- respects _ (isEmpty _) _ => apply respects_gets
  | |- respects _ (instanceof _ _) _ => apply respects_gets
  | |- respects _ (hasProp _ _) _ => apply respects_gets
  | |- respects _ (alloc _) _ => apply respects_alloc
  | |- respects _ (new _ _) _ => apply respects_new
  | |- respects _ (set (VRef _) _ _) _ => apply respects_set; try done
  | |- respects _ (assign (VRef _) _) _ => apply respects_assign; try done
  | |- respects _ (replace_regexp _ _) _ => apply respects_replace_regexp
  | |- respects _ (if ?b then _ else _) _ => destruct b
  end.

Lemma createFillStyle_respects h0 vlStyle prefix :
  respects h0 (createFillStyle vlStyle prefix) (fun _ => True).
Proof.
  unfold createFillStyle. repeat respects_step.
  unfold reduce. respects_step; [respects_step|].
  eapply respects_weaken; [apply respects_reduce_keys|done].
  intros v k. repeat respects_step.
Qed.

Lemma createStrokeStyle_respects h0 vlStyle prefix :
  respects h0 (createStrokeStyle vlStyle prefix) (fun _ => True).
Proof.
  unfold createStrokeStyle. repeat respects_step.
  unfold reduce. respects_step; [respects_step|].
  eapply respects_weaken; [apply respects_reduce_keys|done].
  intros v k. repeat respects_step.
Qed.

Lemma orElse_respects h0 (a b : M value) :
  respects h0 a (fun _ => True) -> respects h0 b (fun _ => True) ->
  respects h0 (orElse a b) (fun _ => True).
Proof. intros Ha Hb. unfold orElse. repeat respects_step; done. Qed.

Lemma pick_respects h0 object ks : respects h0 (pick object ks) (fun _ => True).
Proof. unfold pick. repeat respects_step. Qed.

Ltac respects_call :=
  first
    [ apply createFillStyle_respects
    | apply createStrokeStyle_respects
    | apply orElse_respects
    | apply pick_respects
    | respects_step ].

Lemma createImageStyle_respects h0 vlStyle :
  respects h0 (createImageStyle vlStyle) (fun _ => True).
Proof.
  unfold createImageStyle. repeat respects_call.
Qed.

Lemma createTextStyle_respects h0 vlStyle :
  respects h0 (createTextStyle vlStyle) (fun _ => True).
Proof. unfold createTextStyle. repeat respects_call. Qed.

Lemma createGeomStyle_respects h0 vlStyle :
  respects h0 (createGeomStyle vlStyle) (fun _ => True).
Proof. unfold createGeomStyle. repeat respects_call. Qed.

Lemma createStyle_respects h0 vlStyle :
  respects h0 (createStyle vlStyle) (fun _ => True).
Proof.
  unfold createStyle.
  repeat first
    [ apply createTextStyle_respects
    | apply createImageStyle_respects
    | apply createGeomStyle_respects
    | respects_call ].
Qed.

(** ** The renaming reducers *)

Lemma bind_run {A B} (m : M A) (k : A -> M B) (h : heap) :
  bind m k h =
  match m h with
  | Ret a h' => k a h'
  | Throw e h' => Throw e h'
  end.
Proof. reflexivity. Qed.

Ltac exec :=
  repeat first
    [ progress cbn [get gets ret modify set alloc isEmpty instanceof hasProp throw
                    new rejected assign is_empty final_heap fst snd negb]
    | rewrite bind_run ].

Lemma reduce_keys_collect vl cb target ks : forall a acc (h : heap),
  (forall k v h', In k ks ->
     cb (VRef a) v k h' = apply_target target (VRef a) v k h') ->
  h !! a = Some (Plain acc) -> a <> vl ->
  reduce_keys vl cb ks (VRef a) h =
    Ret (VRef a) (<[a := Plain (fold_left (collect target (heap_props h vl)) ks acc)]> h).
Proof.
  induction ks as [|k ks IH]; intros a acc h Hcb Ha Hne.
  - simpl. by rewrite list_insert_id.
  - cbn [reduce_keys fold_left]. exec.
    rewrite Hcb by (by left). unfold apply_target, collect at 2.
    fold (heap_get h vl k). destruct (target k) as [n|]; exec.
    + rewrite (heap_set_plain h a acc) by done.
      erewrite IH; [| intros; apply Hcb; by right | | done].
      * rewrite list_insert_insert_eq. rewrite heap_props_insert_ne by done. done.
      * apply list_lookup_insert_eq. by eapply lookup_lt_Some.
    + apply IH; [|done..]. intros; apply Hcb; by right.
Qed.

Lemma build_run c vl cb target (h : heap) :
  c <> CIcon ->
  vl < length h ->
  (forall k v h', In k (pkeys (heap_props h vl)) ->
     cb (VRef (length h)) v k h' = apply_target target (VRef (length h)) v k h') ->
  (let* acc := alloc (Plain []) in
   let* style := reduce vl cb (VRef acc) in
   let* empty := isEmpty style in
   if negb empty then new c style else ret VUndefined) h =
  match options_of target (heap_props h vl) with
  | [] => Ret VUndefined (h ++ [Plain []])
  | opts => Ret (VRef (S (length h))) (h ++ [Plain opts; Instance c opts []])
  end.
Proof.
  intros Hc Hvl Hcb. unfold reduce. exec.
  assert (forall o, rejected c o = None) as Hnew by (by destruct c).
  rewrite heap_props_app_l by done.
  erewrite reduce_keys_collect with (acc := []); [|done| |lia].
  2:{ rewrite lookup_app_r by done. by rewrite Nat.sub_diag. }
  rewrite heap_props_app_l by done.
  fold (options_of target (heap_props h vl)).
  replace (<[length h := Plain (options_of target (heap_props h vl))]> (h ++ [Plain []]))
    with (h ++ [Plain (options_of target (heap_props h vl))]).
  2:{ rewrite insert_app_r_alt by done. by rewrite Nat.sub_diag. }
  exec. unfold no_keys.
  rewrite lookup_app_r by done. rewrite Nat.sub_diag. simpl.
  destruct (options_of target (heap_props h vl)) as [|kv opts] eqn:E; exec; [done|].
  unfold heap_props. rewrite lookup_app_r by done. rewrite Nat.sub_diag. simpl.
  rewrite Hnew. exec.
  rewrite length_app. simpl. rewrite Nat.add_1_r.
  by rewrite <- app_assoc.
Qed.

(** ** What the gathered options hold *)

Lemma options_lookup_other target ps n ks : forall acc,
  (forall k, In k ks -> target k <> Some n) ->
  plookup n (fold_left (collect target ps) ks acc) = plookup n acc.
Proof.
  induction ks as [|k ks IH]; intros acc Hks; [done|]. simpl.
  rewrite IH by (intros; apply Hks; by right).
  unfold collect. destruct (target k) as [n'|] eqn:E; [|done].
  apply plookup_pset_ne. intros ->. by apply (Hks k); [left|].
Qed.

Lemma options_lookup_hit target ps n k ks : forall acc,
  target k = Some n ->
  (forall k', target k' = Some n -> k' = k) ->
  plookup n acc = Some (entry n (pget ps k)) \/ In k ks ->
  plookup n (fold_left (collect target ps) ks acc) = Some (entry n (pget ps k)).
Proof.
  induction ks as [|k0 ks IH]; intros acc Hk Huniq Hin.
  - destruct Hin as [?|[]]. done.
  - simpl. apply IH; [done..|]. unfold collect at 1.
    destruct (target k0) as [n'|] eqn:E.
    + destruct (decide (n' = n)) as [->|Hne].
      * left. rewrite (Huniq k0 E). apply plookup_pset_eq.
      * rewrite plookup_pset_ne by done.
        destruct Hin as [?|[->|?]]; [by left|congruence|by right].
    + destruct Hin as [?|[->|?]]; [by left|congruence|by right].
Qed.

Lemma options_keys target ps n ks : forall acc,
  is_Some (plookup n (fold_left (collect target ps) ks acc)) ->
  is_Some (plookup n acc) \/ exists k, In k ks /\ target k = Some n.
Proof.
  induction ks as [|k ks IH]; intros acc H; [by left|].
  simpl in H. apply IH in H as [H|(k' & Hin & Hk')].
  - unfold collect in H. destruct (target k) as [n'|] eqn:E; [|by left].
    destruct (decide (n' = n)) as [->|Hne].
    + right. exists k. split; [by left|done].
    + rewrite plookup_pset_ne in H by done. by left.
  - right. exists k'. split; [by right|done].
Qed.

Lemma options_skip target ps ks : forall acc,
  (forall k, In k ks -> target k = None) ->
  fold_left (collect target ps) ks acc = acc.
Proof.
  induction ks as [|k ks IH]; intros acc Hks; [done|]. simpl.
  rewrite IH by (intros; apply Hks; by right).
  unfold collect. by rewrite (Hks k) by (by left).
Qed.

Lemma options_keep target ps ks : forall acc,
  acc <> [] -> fold_left (collect target ps) ks acc <> [].
Proof.
  induction ks as [|k ks IH]; intros acc H; [done|]. simpl. apply IH.
  unfold collect. destruct (target k); [apply pset_not_nil|done].
Qed.

Lemma options_some target ps k ks : forall acc,
  In k ks -> is_Some (target k) ->
  fold_left (collect target ps) ks acc <> [].
Proof.
  induction ks as [|k0 ks IH]; intros acc Hin Hk; [done|]. simpl.
  destruct (target k0) as [n|] eqn:E.
  - apply options_keep. unfold collect. rewrite E. apply pset_not_nil.
  - destruct Hin as [->|Hin]; [|by apply IH].
    rewrite E in Hk. by destruct Hk.
Qed.

Lemma options_of_nil target ps :
  options_of target ps = [] <-> forall k, In k (pkeys ps) -> target k = None.
Proof.
  split.
  - intros Hnil k Hin. destruct (target k) as [n|] eqn:E; [|done].
    exfalso. revert Hnil. apply (options_some target ps k); [done|].
    rewrite E. eauto.
  - intros H. unfold options_of. by apply options_skip.
Qed.

(** ** The alias tables *)

Lemma addPrefix_eqb prefix a b :
  String.eqb (addPrefix prefix a) (addPrefix prefix b) =
  if truthy (VStr prefix) then String.eqb (upperFirst a) (upperFirst b)
  else String.eqb a b.
Proof.
  unfold addPrefix. destruct (truthy (VStr prefix)).
  - destruct (String.eqb_spec (upperFirst a) (upperFirst b)) as [->|Hne].
    + apply String.eqb_refl.
    + apply String.eqb_neq. intros H. by apply (inj _) in H.
  - destruct (String.eqb_spec a b) as [->|Hne].
    + apply String.eqb_refl.
    + apply String.eqb_neq. intros H. by apply (inj _) in H.
Qed.

Lemma stroke_alias_key prefix k a :
  In (k, a) stroke_aliases -> stroke_alias prefix (addPrefix prefix k) = Some a.
Proof.
  intros Hin. unfold stroke_alias, stroke_aliases in *.
  cbn [find fst snd]. rewrite !addPrefix_eqb.
  repeat (destruct Hin as [[= <- <-]|Hin]; [by destruct (truthy (VStr prefix))|]).
  destruct Hin.
Qed.

Lemma stroke_alias_inv prefix k' a :
  stroke_alias prefix k' = Some a ->
  exists k, In (k, a) stroke_aliases /\ k' = addPrefix prefix k.
Proof.
  unfold stroke_alias, stroke_aliases. cbn [find fst snd].
  repeat lazymatch goal with
  | |- context [String.eqb k' ?x] =>
      let E := fresh "E" in
      destruct (String.eqb k' x) eqn:E;
      [ apply String.eqb_eq in E; intros [= <-]; eexists; split; [|exact E];
        simpl; eauto 10 | ]
  end.
  done.
Qed.

Lemma stroke_alias_unique prefix k k' a :
  In (k, a) stroke_aliases -> stroke_alias prefix k' = Some a -> k' = addPrefix prefix k.
Proof.
  intros Hin (k2 & Hin2 & ->)%stroke_alias_inv. f_equal.
  unfold stroke_aliases in *. simpl in Hin, Hin2.
  repeat (destruct Hin as [Hin|Hin]); try done;
    repeat (destruct Hin2 as [Hin2|Hin2]); try done; congruence.
Qed.

Lemma pget_lookup ps k v : plookup k ps = Some v -> pget ps k = v.
Proof. unfold pget. by intros ->. Qed.

Lemma stroke_options_lookup prefix ps k a :
  In (k, a) stroke_aliases ->
  plookup a (stroke_options prefix ps) = entry a <$> plookup (addPrefix prefix k) ps.
Proof.
  intros Hin. unfold stroke_options, options_of.
  destruct (plookup (addPrefix prefix k) ps) as [v|] eqn:E; simpl.
  - rewrite <- (pget_lookup _ _ _ E).
    apply options_lookup_hit.
    + by apply stroke_alias_key.
    + intros k'. by apply stroke_alias_unique.
    + right. apply plookup_pkeys. by rewrite E.
  - rewrite options_lookup_other; [done|].
    intros k' Hk' Ha. apply (stroke_alias_unique _ _ _ _ Hin) in Ha. subst k'.
    apply plookup_pkeys in Hk'. rewrite E in Hk'. by destruct Hk'.
Qed.

Lemma stroke_options_keys prefix ps n :
  is_Some (plookup n (stroke_options prefix ps)) ->
  exists k, In (k, n) stroke_aliases /\ is_Some (plookup (addPrefix prefix k) ps).
Proof.
  intros H. apply options_keys in H as [[? [=]]|(k' & Hin & Ha)].
  apply stroke_alias_inv in Ha as (k & Hk & ->).
  exists k. split; [done|]. by apply plookup_pkeys.
Qed.

Lemma fill_options_eq prefix ps :
  options_of (fill_alias prefix) ps = fill_options prefix ps.
Proof.
  unfold fill_options, options_of.
  assert (forall ks acc,
    acc = [] \/ acc = [("color", normalizeColor (pget ps (addPrefix prefix "fillColor")))] ->
    let r := fold_left (collect (fill_alias prefix) ps) ks acc in
    r = [] \/ r = [("color", normalizeColor (pget ps (addPrefix prefix "fillColor")))])
    as Hshape.
  { induction ks as [|k ks IH]; intros acc Hacc; [done|]. simpl. apply IH.
    unfold collect, fill_alias.
    destruct (String.eqb_spec k (addPrefix prefix "fillColor")) as [->|]; [|done].
    right. by destruct Hacc as [-> | ->]. }
  destruct (plookup (addPrefix prefix "fillColor") ps) as [v|] eqn:E.
  - destruct (Hshape (pkeys ps) []) as [Hr|Hr]; [by left| |].
    + exfalso. revert Hr. apply (options_some _ _ (addPrefix prefix "fillColor")).
      * apply plookup_pkeys. by rewrite E.
      * unfold fill_alias. rewrite String.eqb_refl. eauto.
    + rewrite Hr. by rewrite (pget_lookup _ _ _ E).
  - apply options_skip. intros k Hk. unfold fill_alias.
    destruct (String.eqb_spec k (addPrefix prefix "fillColor")) as [->|]; [|done].
    apply plookup_pkeys in Hk. rewrite E in Hk. by destruct Hk.
Qed.

(** ** Running the fill and stroke compilers *)

Lemma createFillStyle_run (h : heap) vlStyle prefix :
  vlStyle < length h -> literal_pattern prefix = true ->
  createFillStyle vlStyle prefix h = run_view h (fill_view h vlStyle prefix).
Proof.
  intros Hvl Hlit. unfold createFillStyle, fill_view, compiled_view.
  rewrite bind_run. cbn [get gets]. rewrite bind_run. cbn [instanceof gets].
  destruct (instance_of h (heap_get h vlStyle (addPrefix prefix "fill")) CFill); [done|].
  rewrite (build_run CFill vlStyle _ (fill_alias prefix)); [|done..|].
  - rewrite fill_options_eq. by destruct (fill_options _ _).
  - intros k v h' _. unfold apply_target, fill_alias. cbn [map includes existsb].
    rewrite orb_false_r.
    destruct (String.eqb k (addPrefix prefix "fillColor")) eqn:E; [|done].
    apply String.eqb_eq in E. subst k. cbn [negb].
    rewrite replace_regexp_literal by (by apply literal_addPrefix).
    rewrite bind_run. cbn [ret].
    change "fillColor" with ("fill" +:+ "Color").
    rewrite remove_first_addPrefix. done.
Qed.

Ltac stroke_case k :=
  lazymatch goal with
  | |- context [String.eqb k ?x] =>
      let E := fresh "E" in
      destruct (String.eqb k x) eqn:E; cbn [orb negb find fst snd];
      [ apply String.eqb_eq in E; subst k | stroke_case k ]
  | _ => idtac
  end.

Ltac strip_key prefix :=
  match goal with
  | |- context [remove_first _ (addPrefix prefix ?key)] =>
      let t := eval vm_compute in (remove_first "stroke" key) in
      change key with ("stroke" +:+ t); rewrite remove_first_addPrefix
  end.

Lemma stroke_callback prefix (style v : value) (k : string) (h' : heap) :
  literal_pattern prefix = true ->
  (let prefixKey := addPrefix prefix in
   let keys := map prefixKey
     ["strokeColor"; "strokeWidth"; "strokeMiterLimit"; "strokeCap";
      "strokeJoin"; "strokeDash"; "strokeDashOffset"] in
   if negb (includes keys k) then ret style else
   let* name :=
     if includes (map prefixKey ["strokeColor"; "strokeWidth"; "strokeMiterLimit"]) k
     then
       let* n := replace_regexp k (prefixKey "stroke") in
       ret (lowerFirst n)
     else if includes (map prefixKey
               ["strokeCap"; "strokeJoin"; "strokeDash"; "strokeDashOffset"]) k
     then
       let* n := replace_regexp k (prefixKey "stroke") in
       ret ("line" +:+ n)
     else ret k in
   let value := if String.eqb name "color" then normalizeColor v else v in
   run set style name value in
   ret style) h' = apply_target (stroke_alias prefix) style v k h'.
Proof.
  intros Hlit. unfold apply_target, stroke_alias, stroke_aliases.
  rewrite !replace_regexp_literal by (by apply literal_addPrefix).
  cbn [map includes existsb find fst snd].
  stroke_case k.
  all: try strip_key prefix.
  all: reflexivity.
Qed.

Lemma createStrokeStyle_run (h : heap) vlStyle prefix :
  vlStyle < length h -> literal_pattern prefix = true ->
  createStrokeStyle vlStyle prefix h = run_view h (stroke_view h vlStyle prefix).
Proof.
  intros Hvl Hlit. unfold createStrokeStyle, stroke_view, compiled_view.
  rewrite bind_run. cbn [get gets]. rewrite bind_run. cbn [instanceof gets].
  destruct (instance_of h (heap_get h vlStyle (addPrefix prefix "stroke")) CStroke); [done|].
  rewrite (build_run CStroke vlStyle _ (stroke_alias prefix)); [|done..|].
  - unfold stroke_options. by destruct (options_of _ _).
  - intros k v h' _. by apply stroke_callback.
Qed.

(** A compilation only adds objects, and its result is the sub-style read
    off the record. *)
Lemma run_view_denotes (h : heap) d :
  exists v h', run_view h d = Ret v h' /\ h `prefix_of` h' /\ denotes h h' v d /\
    truthy v = match d with Absent => false | Reused c => truthy c | Built _ _ => true end.
Proof.
  destruct d as [c|c opts|]; simpl.
  - by exists c, h.
  - eexists _, _. split; [done|]. split; [by apply prefix_app_r|]. split; [|done].
    exists (S (length h)). split; [done|]. split; [lia|].
    rewrite lookup_app_r by lia. by replace (S (length h) - length h) with 1 by lia.
  - eexists _, _. split; [done|]. split; [by apply prefix_app_r|]. done.
Qed.

Lemma denotes_mono (h0 h h' h'' : heap) v d :
  denotes h h' v d -> h0 `prefix_of` h -> h' `prefix_of` h'' -> denotes h0 h'' v d.
Proof.
  destruct d as [c|c opts|]; simpl; [done| |done].
  intros (r & -> & Hr & Hl) H0 H1. exists r. split; [done|]. split.
  - apply prefix_length in H0. lia.
  - by eapply prefix_lookup_Some.
Qed.

Lemma compiled_view_stable c (h h' : heap) stored opts :
  h `prefix_of` h' -> closed_value h stored ->
  compiled_view c h' stored opts = compiled_view c h stored opts.
Proof.
  intros Hp Hc. unfold compiled_view.
  destruct stored; try done. by rewrite (instance_of_prefix h h').
Qed.

Lemma heap_get_prefix (h h' : heap) l k :
  h `prefix_of` h' -> l < length h -> heap_get h' l k = heap_get h l k.
Proof. intros. unfold heap_get. by rewrite (heap_props_prefix h h'). Qed.

Lemma fill_view_stable (h h' : heap) vlStyle prefix :
  h `prefix_of` h' -> vlStyle < length h -> closed_record h vlStyle ->
  fill_view h' vlStyle prefix = fill_view h vlStyle prefix.
Proof.
  intros Hp Hl Hc. unfold fill_view.
  rewrite (heap_get_prefix h h'), (heap_props_prefix h h') by done.
  by apply compiled_view_stable.
Qed.

Lemma stroke_view_stable (h h' : heap) vlStyle prefix :
  h `prefix_of` h' -> vlStyle < length h -> closed_record h vlStyle ->
  stroke_view h' vlStyle prefix = stroke_view h vlStyle prefix.
Proof.
  intros Hp Hl Hc. unfold stroke_view.
  rewrite (heap_get_prefix h h'), (heap_props_prefix h h') by done.
  by apply compiled_view_stable.
Qed.

Lemma reused_truthy c (h : heap) stored opts v :
  compiled_view c h stored opts = Reused v -> truthy v = true.
Proof.
  unfold compiled_view. destruct (instance_of h stored c) eqn:E.
  - intros [= <-]. by destruct stored.
  - by destruct opts.
Qed.

(** [compile prefix || compile ""], for either compiler. *)
Lemma orElse_denotes (compile : loc -> string -> M value)
    (view : heap -> loc -> string -> compiled) c (stored : heap -> string -> value)
    (opts : heap -> string -> props) (h : heap) vlStyle prefix :
  (forall h p, vlStyle < length h -> literal_pattern p = true ->
     compile vlStyle p h = run_view h (view h vlStyle p)) ->
  (forall h p, view h vlStyle p = compiled_view c h (stored h p) (opts h p)) ->
  (forall h' p, h `prefix_of` h' -> view h' vlStyle p = view h vlStyle p) ->
  vlStyle < length h -> literal_pattern prefix = true ->
  exists v h',
    orElse (compile vlStyle prefix) (compile vlStyle "") h = Ret v h' /\
    h `prefix_of` h' /\
    denotes h h' v (or_view (view h vlStyle prefix) (view h vlStyle "")).
Proof.
  intros Hrun Hview Hstable Hl Hlit. unfold orElse. rewrite bind_run.
  rewrite Hrun by done.
  destruct (run_view_denotes h (view h vlStyle prefix)) as (v & h1 & -> & Hp & Hd & Ht).
  destruct (view h vlStyle prefix) as [w|c' o|] eqn:E.
  - rewrite Hview in E. apply reused_truthy in E. simpl in Hd. rewrite Ht, E.
    by exists v, h1.
  - rewrite Ht. by exists v, h1.
  - rewrite Ht. simpl.
    rewrite Hrun by (by (eapply Nat.lt_le_trans; [|by apply prefix_length]) || done).
    destruct (run_view_denotes h1 (view h1 vlStyle "")) as (v2 & h2 & -> & Hp2 & Hd2 & _).
    exists v2, h2. split; [done|]. split; [by etrans|].
    rewrite <- (Hstable h1) by done. by eapply denotes_mono.
Qed.

(** ** Identity accessors *)

Lemma heap_set_get (h : heap) l k v :
  has_prop h l k = true -> heap_get (heap_set l k v h) l k = v.
Proof.
  unfold has_prop, heap_get, heap_set, heap_props.
  destruct (h !! l) as [[ps|c opts own]|] eqn:E; simpl; [| |done]; intros _.
  all: rewrite list_lookup_insert_eq by (by eapply lookup_lt_Some); simpl.
  all: unfold pget; by rewrite plookup_pset_eq.
Qed.

Lemma heap_set_get_ne (h : heap) l k k' v :
  k <> k' -> heap_get (heap_set l k v h) l k' = heap_get h l k'.
Proof.
  intros Hne. unfold heap_get, heap_set, heap_props.
  destruct (h !! l) as [[ps|c opts own]|] eqn:E; simpl; [| |by rewrite E].
  all: rewrite list_lookup_insert_eq by (by eapply lookup_lt_Some); simpl.
  all: unfold pget; by rewrite plookup_pset_ne.
Qed.

Lemma heap_set_other (h : heap) l l' k v :
  l <> l' -> heap_set l k v h !! l' = h !! l'.
Proof.
  intros Hne. unfold heap_set.
  destruct (h !! l) as [[ps|c opts own]|]; [| |done]; by rewrite list_lookup_insert_ne.
Qed.

(** C4: [getStyleId] and [setStyleId] throw exactly when the style has no
    [id] property, the error being "Illegal style argument" and the heap
    staying as it was; otherwise the getter yields [style.id], and the
    setter stores the new id on the style, touches nothing else and hands
    the same style back. *)
Theorem identity_accessors (h : heap) (style : loc) (styleId : value) :
  ((exists e h', getStyleId style h = Throw e h') <-> has_prop h style "id" = false) /\
  ((exists e h', setStyleId style styleId h = Throw e h') <-> has_prop h style "id" = false) /\
  (has_prop h style "id" = false ->
     getStyleId style h = Throw illegal_style h /\
     setStyleId style styleId h = Throw illegal_style h) /\
  (has_prop h style "id" = true ->
     getStyleId style h = Ret (heap_get h style "id") h /\
     exists h',
       setStyleId style styleId h = Ret (VRef style) h' /\
       heap_get h' style "id" = styleId /\
       (forall k, k <> "id" -> heap_get h' style k = heap_get h style k) /\
       (forall l, l <> style -> h' !! l = h !! l)).
Proof.
  unfold getStyleId, setStyleId. exec.
  destruct (has_prop h style "id") eqn:E; exec.
  - split; [split; [by intros (? & ? & ?)|done]|].
    split; [split; [by intros (? & ? & ?)|done]|].
    split; [done|]. intros _. split; [done|].
    eexists. split; [done|]. split; [by apply heap_set_get|].
    split; [intros; by apply heap_set_get_ne|intros; by apply heap_set_other].
  - split; [split; [done|by eexists _, _]|].
    split; [split; [done|by eexists _, _]|].
    split; [done|]. done.
Qed.

(** C10: on a style with an [id] property [initializeStyle] hands the same
    object back; a null or undefined id is replaced by the default id when
    that is truthy and by the generated uuid otherwise, so that the id is
    not null afterwards; an id that is not null stays, the heap with it.
    Without an [id] property the call throws. *)
Theorem initializeStyle_spec (h : heap) (style : loc) (defaultStyleId : value)
    (uuid : string) :
  (has_prop h style "id" = true ->
     exists h',
       initializeStyle style defaultStyleId uuid h = Ret (VRef style) h' /\
       nullish (heap_get h' style "id") = false /\
       (nullish (heap_get h style "id") = true ->
          heap_get h' style "id" =
            (if truthy defaultStyleId then defaultStyleId else VStr uuid)) /\
       (nullish (heap_get h style "id") = false -> h' = h)) /\
  (has_prop h style "id" = false ->
     initializeStyle style defaultStyleId uuid h = Throw illegal_style h).
Proof.
  unfold initializeStyle, getStyleId, setStyleId. exec.
  destruct (has_prop h style "id") eqn:E; exec; [|done].
  split; [|done]. intros _.
  destruct (nullish (heap_get h style "id")) eqn:N; exec.
  - rewrite E. exec. eexists. split; [done|].
    rewrite heap_set_get by done.
    split; [|done]. destruct (truthy defaultStyleId) eqn:T; [|done].
    by destruct defaultStyleId.
  - exists h. by rewrite N.
Qed.

(** ** Sub-styles compiled beforehand *)

(** C3: a sub-style that is already an instance of its class is handed
    back as it is, and no object is added to the heap: a [Fill] under the
    prefixed [fill] key, a [Stroke] under the prefixed [stroke] key, an
    image style under [image], a [Text] under [text].  (An image style,
    being an instance of the library, is not an object without keys, so
    the test of emptiness that comes first lets it through.) *)
Theorem compiled_reused (h : heap) (vlStyle : loc) (prefix : string) :
  (instance_of h (heap_get h vlStyle (addPrefix prefix "fill")) CFill = true ->
     createFillStyle vlStyle prefix h =
       Ret (heap_get h vlStyle (addPrefix prefix "fill")) h) /\
  (instance_of h (heap_get h vlStyle (addPrefix prefix "stroke")) CStroke = true ->
     createStrokeStyle vlStyle prefix h =
       Ret (heap_get h vlStyle (addPrefix prefix "stroke")) h) /\
  (instance_of h (heap_get h vlStyle "image") CImage = true ->
     createImageStyle vlStyle h = Ret (heap_get h vlStyle "image") h) /\
  (instance_of h (heap_get h vlStyle "text") CText = true ->
     createTextStyle vlStyle h = Ret (heap_get h vlStyle "text") h).
Proof.
  split; [|split; [|split]]; intros H.
  - unfold createFillStyle. rewrite bind_run. cbn [get gets]. rewrite bind_run.
    cbn [instanceof gets]. by rewrite H.
  - unfold createStrokeStyle. rewrite bind_run. cbn [get gets]. rewrite bind_run.
    cbn [instanceof gets]. by rewrite H.
  - unfold createImageStyle. do 7 (rewrite bind_run; cbn [get gets isEmpty]).
    assert (is_empty h (heap_get h vlStyle "image") = false) as ->.
    { destruct (heap_get h vlStyle "image") as [| | | | | | |l]; try done.
      simpl in *. unfold no_keys. by destruct (h !! l) as [[|]|]. }
    rewrite andb_false_r. cbn [andb].
    rewrite bind_run. cbn [instanceof gets]. by rewrite H.
  - unfold createTextStyle. rewrite bind_run. cbn [get gets].
    destruct (nullish (heap_get h vlStyle "text")) eqn:N.
    { by destruct (heap_get h vlStyle "text"). }
    rewrite bind_run. cbn [instanceof gets]. by rewrite H.
Qed.

(** ** Patterns outside the fragment *)

Lemma reduce_keys_inert vl cb a e ks : forall h : heap,
  (forall k v h', cb (VRef a) v k h' = Ret (VRef a) h' \/ cb (VRef a) v k h' = Throw e h') ->
  reduce_keys vl cb ks (VRef a) h = Ret (VRef a) h \/
  reduce_keys vl cb ks (VRef a) h = Throw e h.
Proof.
  induction ks as [|k ks IH]; intros h Hcb; [by left|].
  cbn [reduce_keys]. exec.
  destruct (Hcb k (heap_get h vl k) h) as [-> | ->]; [by apply IH|by right].
Qed.

Lemma build_inert c vl cb e (h : heap) v h' :
  (forall k v h', cb (VRef (length h)) v k h' = Ret (VRef (length h)) h' \/
                  cb (VRef (length h)) v k h' = Throw e h') ->
  (let* acc := alloc (Plain []) in
   let* style := reduce vl cb (VRef acc) in
   let* empty := isEmpty style in
   if negb empty then new c style else ret VUndefined) h = Ret v h' ->
  v = VUndefined /\ h' = h ++ [Plain []].
Proof.
  intros Hcb. unfold reduce. exec.
  destruct (reduce_keys_inert vl cb (length h) e
              (pkeys (heap_props (h ++ [Plain []]) vl)) (h ++ [Plain []]) Hcb)
    as [-> | ->]; [|done].
  exec. unfold no_keys. rewrite lookup_app_r by done. rewrite Nat.sub_diag. simpl.
  by intros [= <- <-].
Qed.

Lemma createFillStyle_inert (h : heap) vlStyle prefix v h' :
  RegExp (addPrefix prefix "fill") = None ->
  createFillStyle vlStyle prefix h = Ret v h' ->
  (v = heap_get h vlStyle (addPrefix prefix "fill") /\ h' = h) \/
  (v = VUndefined /\ h' = h ++ [Plain []]).
Proof.
  intros Hpat. unfold createFillStyle.
  rewrite bind_run. cbn [get gets]. rewrite bind_run. cbn [instanceof gets].
  destruct (instance_of h _ CFill); [intros [= <- <-]; by left|].
  intros H. right. revert H.
  apply (build_inert CFill vlStyle _ (Unmodelled "RegExp")).
  intros k w h1. destruct (negb _); [by left|]. right.
  unfold replace_regexp. by rewrite Hpat.
Qed.

Lemma createStrokeStyle_inert (h : heap) vlStyle prefix v h' :
  RegExp (addPrefix prefix "stroke") = None ->
  createStrokeStyle vlStyle prefix h = Ret v h' ->
  (v = heap_get h vlStyle (addPrefix prefix "stroke") /\ h' = h) \/
  (v = VUndefined /\ h' = h ++ [Plain []]).
Proof.
  intros Hpat. unfold createStrokeStyle.
  rewrite bind_run. cbn [get gets]. rewrite bind_run. cbn [instanceof gets].
  destruct (instance_of h _ CStroke); [intros [= <- <-]; by left|].
  intros H. right. revert H.
  apply (build_inert CStroke vlStyle _ (Unmodelled "RegExp")).
  intros k w h1. unfold replace_regexp. rewrite Hpat.
  cbn [map includes existsb]. stroke_case k; by auto.
Qed.

(** ** Patterns of the fragment, whatever the prefix *)

Ltac key_case k :=
  repeat lazymatch goal with
  | |- context [String.eqb k ?x] => destruct (String.eqb k x); cbn [orb negb]
  end.

Lemma createFillStyle_matched (h : heap) vlStyle prefix p :
  vlStyle < length h -> RegExp (addPrefix prefix "fill") = Some p ->
  createFillStyle vlStyle prefix h =
    run_view h (compiled_view CFill h (heap_get h vlStyle (addPrefix prefix "fill"))
                  (options_of (fill_name p prefix) (heap_props h vlStyle))).
Proof.
  intros Hvl Hpat. unfold createFillStyle, compiled_view.
  rewrite bind_run. cbn [get gets]. rewrite bind_run. cbn [instanceof gets].
  destruct (instance_of h (heap_get h vlStyle (addPrefix prefix "fill")) CFill); [done|].
  rewrite (build_run CFill vlStyle _ (fill_name p prefix)); [|done..|].
  - by destruct (options_of _ _).
  - intros k v h' _. unfold apply_target, fill_name, replace_regexp. rewrite Hpat.
    cbn [map includes existsb]. by key_case k.
Qed.

Lemma createStrokeStyle_matched (h : heap) vlStyle prefix p :
  vlStyle < length h -> RegExp (addPrefix prefix "stroke") = Some p ->
  createStrokeStyle vlStyle prefix h =
    run_view h (compiled_view CStroke h (heap_get h vlStyle (addPrefix prefix "stroke"))
                  (options_of (stroke_name p prefix) (heap_props h vlStyle))).
Proof.
  intros Hvl Hpat. unfold createStrokeStyle, compiled_view.
  rewrite bind_run. cbn [get gets]. rewrite bind_run. cbn [instanceof gets].
  destruct (instance_of h (heap_get h vlStyle (addPrefix prefix "stroke")) CStroke); [done|].
  rewrite (build_run CStroke vlStyle _ (stroke_name p prefix)); [|done..|].
  - by destruct (options_of _ _).
  - intros k v h' _. unfold apply_target, stroke_name, replace_regexp. rewrite Hpat.
    cbn [map includes existsb]. by key_case k.
Qed.


(** ** Emptiness elision in the fill and stroke compilers *)

Lemma run_view_instance (h : heap) d v h' r c opts own :
  run_view h d = Ret v h' -> length h <= r ->
  h' !! r = Some (Instance c opts own) ->
  d = Built c opts.
Proof.
  destruct d as [w|c' o|]; simpl; intros [= <- <-] Hr Hl.
  - apply lookup_lt_Some in Hl. lia.
  - rewrite lookup_app_r in Hl by done.
    destruct (r - length h) as [|[|n]]; simpl in Hl; by simplify_eq.
  - rewrite lookup_app_r in Hl by done.
    destruct (r - length h) as [|n]; simpl in Hl; by simplify_eq.
Qed.

Lemma compiled_view_built c (h : heap) stored opts c' o :
  compiled_view c h stored opts = Built c' o -> o <> [].
Proof.
  unfold compiled_view. destruct (instance_of h stored c); [done|].
  destruct opts; [done|]. by intros [= <- <-].
Qed.


(** C6: for a record of the heap and any prefix, without the prefixed
    [fillColor] key and without a [Fill] compiled beforehand,
    [createFillStyle] yields undefined; so does [createStrokeStyle] without
    any of the seven prefixed stroke keys and without a [Stroke] compiled
    beforehand.  Whatever the record holds, an instance either compiler
    builds has options that are not empty. *)
Theorem empty_substyle_elided (h : heap) (vlStyle : loc) (prefix : string) :
  vlStyle < length h ->
  (plookup (addPrefix prefix "fillColor") (heap_props h vlStyle) = None ->
   instance_of h (heap_get h vlStyle (addPrefix prefix "fill")) CFill = false ->
   createFillStyle vlStyle prefix h = Ret VUndefined (h ++ [Plain []])) /\
  ((forall k a, In (k, a) stroke_aliases ->
      plookup (addPrefix prefix k) (heap_props h vlStyle) = None) ->
   instance_of h (heap_get h vlStyle (addPrefix prefix "stroke")) CStroke = false ->
   createStrokeStyle vlStyle prefix h = Ret VUndefined (h ++ [Plain []])) /\
  (forall v h' r c opts own,
     createFillStyle vlStyle prefix h = Ret v h' \/
     createStrokeStyle vlStyle prefix h = Ret v h' ->
     length h <= r -> h' !! r = Some (Instance c opts own) -> opts <> []).
Proof.
  intros Hvl. split; [|split].
  - intros Hkey Hinst. unfold createFillStyle.
    rewrite bind_run. cbn [get gets]. rewrite bind_run. cbn [instanceof gets].
    rewrite Hinst.
    rewrite (build_run CFill vlStyle _ (fun _ => None)); [|done..|].
    + by rewrite (proj2 (options_of_nil _ _)).
    + intros k v h' Hk. cbn [map includes existsb]. rewrite orb_false_r.
      destruct (String.eqb_spec k (addPrefix prefix "fillColor")) as [->|]; [|done].
      apply plookup_pkeys in Hk. rewrite Hkey in Hk. by destruct Hk.
  - intros Hkeys Hinst. unfold createStrokeStyle.
    rewrite bind_run. cbn [get gets]. rewrite bind_run. cbn [instanceof gets].
    rewrite Hinst.
    rewrite (build_run CStroke vlStyle _ (fun _ => None)); [|done..|].
    + by rewrite (proj2 (options_of_nil _ _)).
    + intros k v h' Hk.
      assert (forall k0 a, In (k0, a) stroke_aliases ->
                String.eqb k (addPrefix prefix k0) = false) as Hne.
      { intros k0 a Hin. apply String.eqb_neq. intros ->.
        apply plookup_pkeys in Hk. rewrite (Hkeys k0 a Hin) in Hk. by destruct Hk. }
      cbn [map includes existsb].
      repeat match goal with
      | |- context [String.eqb k (addPrefix prefix ?k0)] =>
          erewrite (Hne k0); [|unfold stroke_aliases; simpl; eauto 10]
      end.
      done.
  - intros v h' r c opts own Hrun Hr Hl.
    assert (h' = h \/ h' = h ++ [Plain []] -> False) as Hinert.
    { intros [-> | ->].
      - apply lookup_lt_Some in Hl. lia.
      - rewrite lookup_app_r in Hl by done.
        destruct (r - length h) as [|n]; simpl in Hl; by simplify_eq. }
    destruct Hrun as [Hrun|Hrun].
    + destruct (RegExp (addPrefix prefix "fill")) as [p|] eqn:Hpat.
      * rewrite (createFillStyle_matched h vlStyle prefix p) in Hrun by done.
        pose proof (run_view_instance _ _ _ _ _ _ _ _ Hrun Hr Hl) as Hd.
        by apply compiled_view_built in Hd.
      * exfalso. apply Hinert.
        apply createFillStyle_inert in Hrun as [[_ ->]|[_ ->]]; auto.
    + destruct (RegExp (addPrefix prefix "stroke")) as [p|] eqn:Hpat.
      * rewrite (createStrokeStyle_matched h vlStyle prefix p) in Hrun by done.
        pose proof (run_view_instance _ _ _ _ _ _ _ _ Hrun Hr Hl) as Hd.
        by apply compiled_view_built in Hd.
      * exfalso. apply Hinert.
        apply createStrokeStyle_inert in Hrun as [[_ ->]|[_ ->]]; auto.
Qed.

(** ** Renaming and colour normalisation *)

(** C8, for the prefixes it holds of: for a record of the heap and a
    prefix without syntax characters of regular expressions, when no
    [Stroke] was compiled beforehand, the options of
    the stroke are gathered from the seven prefixed keys alone, each under its
    alias ([strokeColor] as [color], [strokeWidth] as [width],
    [strokeMiterLimit] as [miterLimit], [strokeCap] as [lineCap],
    [strokeJoin] as [lineJoin], [strokeDash] as [lineDash],
    [strokeDashOffset] as [lineDashOffset]) and with the value the record
    holds, the colour normalised; the stroke is built from these options,
    or is undefined when there are none. *)
Theorem stroke_key_aliasing (h : heap) (vlStyle : loc) (prefix : string) :
  vlStyle < length h -> literal_pattern prefix = true ->
  instance_of h (heap_get h vlStyle (addPrefix prefix "stroke")) CStroke = false ->
  exists opts : props,
    (forall k a, In (k, a) stroke_aliases ->
       plookup a opts =
         (fun v => if String.eqb a "color" then normalizeColor v else v)
           <$> plookup (addPrefix prefix k) (heap_props h vlStyle)) /\
    (forall n, is_Some (plookup n opts) ->
       exists k, In (k, n) stroke_aliases /\
         is_Some (plookup (addPrefix prefix k) (heap_props h vlStyle))) /\
    createStrokeStyle vlStyle prefix h =
      match opts with
      | [] => Ret VUndefined (h ++ [Plain []])
      | _ => Ret (VRef (S (length h))) (h ++ [Plain opts; Instance CStroke opts []])
      end.
Proof.
  intros Hvl Hlit Hinst. exists (stroke_options prefix (heap_props h vlStyle)).
  split; [|split].
  - intros k a Hin. by apply stroke_options_lookup.
  - apply stroke_options_keys.
  - rewrite createStrokeStyle_run by done.
    unfold stroke_view, compiled_view. rewrite Hinst.
    by destruct (stroke_options _ _).
Qed.


(** ** The record handed to a compiler *)

(** C2, as the code has it: the four compilers never write to the record
    they are given, nor to any object that was there before the call; the
    heap they end in is the heap they started from with new objects after
    it.  A compiled sub-style is found under its key only if the caller
    put it there. *)
Theorem compilers_leave_input (h : heap) (vlStyle : loc) (prefix : string) :
  h `prefix_of` final_heap (createFillStyle vlStyle prefix h) /\
  h `prefix_of` final_heap (createStrokeStyle vlStyle prefix h) /\
  h `prefix_of` final_heap (createImageStyle vlStyle h) /\
  h `prefix_of` final_heap (createTextStyle vlStyle h).
Proof.
  assert (forall m : M value, respects h m (fun _ => True) ->
            h `prefix_of` final_heap (m h)) as Hfin.
  { intros m Hm. specialize (Hm h (reflexivity h)).
    destruct (m h) as [a h'|e h']; simpl; [by destruct Hm|done]. }
  repeat split; apply Hfin.
  - apply createFillStyle_respects.
  - apply createStrokeStyle_respects.
  - apply createImageStyle_respects.
  - apply createTextStyle_respects.
Qed.

(** ** The image compiler *)

Lemma orElse_returns (compile : loc -> string -> M value)
    (view : heap -> loc -> string -> compiled) (h : heap) vlStyle prefix :
  (forall h p, vlStyle < length h -> literal_pattern p = true ->
     compile vlStyle p h = run_view h (view h vlStyle p)) ->
  vlStyle < length h -> literal_pattern prefix = true ->
  exists v h',
    orElse (compile vlStyle prefix) (compile vlStyle "") h = Ret v h' /\
    h `prefix_of` h'.
Proof.
  intros Hrun Hl Hlit. unfold orElse. rewrite bind_run, Hrun by done.
  destruct (run_view_denotes h (view h vlStyle prefix)) as (v & h1 & -> & Hp & _ & _).
  destruct (truthy v); [by exists v, h1|].
  assert (vlStyle < length h1) as Hl1.
  { eapply Nat.lt_le_trans; [done|by apply prefix_length]. }
  rewrite Hrun by done.
  destruct (run_view_denotes h1 (view h1 vlStyle "")) as (v2 & h2 & -> & Hp2 & _ & _).
  exists v2, h2. split; [done|by etrans].
Qed.

Lemma lookup_built (h : heap) (a b : obj) : (h ++ [a; b]) !! S (length h) = Some b.
Proof.
  rewrite lookup_app_r by lia. by replace (S (length h) - length h) with 1 by lia.
Qed.

Lemma image_tail (h1 : heap) vlStyle (choice : class * loc) :
  vlStyle < length h1 ->
  exists fill h2 stroke h3,
    orElse (createFillStyle vlStyle "image") (createFillStyle vlStyle "") h1 =
      Ret fill h2 /\
    h1 `prefix_of` h2 /\
    orElse (createStrokeStyle vlStyle "image") (createStrokeStyle vlStyle "") h2 =
      Ret stroke h3 /\
    h2 `prefix_of` h3 /\
    (let Ctor := choice.1 in
     let* first := gets (fun h => heap_props h choice.2) in
     let* fill := orElse (createFillStyle vlStyle "image") (createFillStyle vlStyle "") in
     let* stroke :=
       orElse (createStrokeStyle vlStyle "image") (createStrokeStyle vlStyle "") in
     let* imageStyle := alloc (Plain (pset_all
       [("fill", fill); ("stroke", stroke); ("snapToPixel", VBool true)] first)) in
     let* empty := isEmpty (VRef imageStyle) in
     if negb empty then new Ctor (VRef imageStyle) else ret VUndefined) h1 =
      let opts :=
        pset_all [("fill", fill); ("stroke", stroke); ("snapToPixel", VBool true)]
          (heap_props h1 choice.2) in
      match rejected choice.1 opts with
      | Some e => Throw e (h3 ++ [Plain opts])
      | None => Ret (VRef (S (length h3))) (h3 ++ [Plain opts; Instance choice.1 opts []])
      end.
Proof.
  intros Hvl.
  destruct (orElse_returns createFillStyle fill_view h1 vlStyle "image")
    as (f & h2 & Hf & Hp2); [intros; by apply createFillStyle_run|done..|].
  assert (vlStyle < length h2) as Hvl2.
  { eapply Nat.lt_le_trans; [done|by apply prefix_length]. }
  destruct (orElse_returns createStrokeStyle stroke_view h2 vlStyle "image")
    as (s & h3 & Hs & Hp3); [intros; by apply createStrokeStyle_run|done..|].
  exists f, h2, s, h3. do 4 (split; [done|]).
  cbn zeta. rewrite bind_run. cbn [gets].
  rewrite bind_run, Hf, bind_run, Hs.
  assert (pset_all [("fill", f); ("stroke", s); ("snapToPixel", VBool true)]
            (heap_props h1 choice.2) <> []) as Hne by (by apply pset_all_not_nil).
  remember (pset_all _ (heap_props h1 choice.2)) as opts eqn:Eo. clear Eo.
  exec. unfold no_keys, heap_props.
  rewrite !lookup_app_r by done. rewrite Nat.sub_diag. cbn [lookup list_lookup].
  destruct opts as [|kv rest]; [done|]. exec.
  rewrite lookup_app_r by done. rewrite Nat.sub_diag. cbn [lookup list_lookup own_props].
  destruct (rejected choice.1 (kv :: rest)); exec; [done|].
  rewrite length_app, Nat.add_1_r. by rewrite <- app_assoc.
Qed.

Ltac plookup_last :=
  cbn [pset_all fold_left fst snd];
  repeat (rewrite plookup_pset_ne by done);
  apply plookup_pset_eq.

(** C9, with the constructor as the library has it: for a record of the
    heap, the image compiler yields undefined when [imageSrc], [image] and
    [imagePoints] are empty and [imageRadius] is not numeric.  Otherwise,
    unless [image] is an image style already, it gathers options that hold
    [snapToPixel] as true and calls a constructor on them: that of [Icon]
    when [imageSrc] or [image] is not empty, else that of [RegularShape]
    when [imagePoints] is not null, else that of [Circle], the radius being
    [imageRadius].  A [RegularShape] and a [Circle] are built; an [Icon]
    is built when its constructor takes the options, and the error of the
    constructor is thrown when it does not. *)
Theorem image_dispatch (h : heap) (vlStyle : loc) :
  vlStyle < length h ->
  let imageSrc := heap_get h vlStyle "imageSrc" in
  let image := heap_get h vlStyle "image" in
  let imagePoints := heap_get h vlStyle "imagePoints" in
  let imageRadius := heap_get h vlStyle "imageRadius" in
  let nothing :=
    is_empty h imageSrc && is_empty h image && is_empty h imagePoints
    && negb (isNumeric imageRadius) in
  let Ctor :=
    if negb (is_empty h imageSrc) || negb (is_empty h image) then CIcon
    else if negb (nullish imagePoints) then CRegularShape
    else CCircle in
  (nothing = true -> createImageStyle vlStyle h = Ret VUndefined h) /\
  (nothing = false -> instance_of h image CImage = false ->
   exists h' opts,
     createImageStyle vlStyle h =
       match rejected Ctor opts with
       | Some e => Throw e (h' ++ [Plain opts])
       | None =>
           Ret (VRef (S (length h'))) (h' ++ [Plain opts; Instance Ctor opts []])
       end /\
     (Ctor <> CIcon -> rejected Ctor opts = None) /\
     h `prefix_of` h' /\
     plookup "snapToPixel" opts = Some (VBool true) /\
     (is_empty h imageSrc = true -> is_empty h image = true ->
      nullish imagePoints = true -> plookup "radius" opts = Some imageRadius) /\
     (is_empty h imageSrc = true -> is_empty h image = true ->
      nullish imagePoints = false -> plookup "points" opts = Some imagePoints) /\
     (negb (is_empty h imageSrc) || negb (is_empty h image) = true ->
      plookup "src" opts = Some imageSrc /\ plookup "img" opts = Some image)).
Proof.
  intros Hvl imageSrc image imagePoints imageRadius nothing Ctor.
  unfold createImageStyle.
  do 7 (rewrite bind_run; cbn [get gets isEmpty]).
  fold imageSrc image imagePoints imageRadius. fold nothing.
  split; [by intros ->|]. intros -> Hinst.
  rewrite bind_run. cbn [instanceof gets]. rewrite Hinst.
  do 2 (rewrite bind_run; cbn [gets]).
  assert (forall o, vlStyle < length (h ++ [o])) as Hvl1.
  { intros o. rewrite length_app. lia. }
  assert (forall o, heap_props (h ++ [Plain o]) (length h) = o) as Hprops.
  { intros o. unfold heap_props. rewrite lookup_app_r by done.
    by rewrite Nat.sub_diag. }
  assert (forall o, h `prefix_of` h ++ [o]) as Hpre by (intros; by eexists).
  rewrite bind_run. unfold Ctor.
  destruct (negb (is_empty h imageSrc) || negb (is_empty h image)) eqn:Eicon;
    [|destruct (negb (nullish imagePoints)) eqn:Epoints].
  all: rewrite bind_run; cbn [alloc ret].
  1: match goal with |- context [h ++ [Plain ?x]] =>
       destruct (image_tail (h ++ [Plain x]) vlStyle (CIcon, length h) (Hvl1 _))
         as (f & h2 & s & h3 & _ & Hp2 & _ & Hp3 & Hrun) end.
  2: match goal with |- context [h ++ [Plain ?x]] =>
       destruct (image_tail (h ++ [Plain x]) vlStyle (CRegularShape, length h) (Hvl1 _))
         as (f & h2 & s & h3 & _ & Hp2 & _ & Hp3 & Hrun) end.
  3: match goal with |- context [h ++ [Plain ?x]] =>
       destruct (image_tail (h ++ [Plain x]) vlStyle (CCircle, length h) (Hvl1 _))
         as (f & h2 & s & h3 & _ & Hp2 & _ & Hp3 & Hrun) end.
  all: cbn zeta in Hrun; cbn [fst snd] in Hrun; rewrite Hprops in Hrun.
  all: eexists h3, _; split; [exact Hrun|].
  all: split; [done|].
  all: split; [etrans; [apply Hpre|]; by transitivity h2|].
  all: split; [plookup_last|].
  - split; [intros; by destruct (is_empty h imageSrc), (is_empty h image)|].
    split; [intros; by destruct (is_empty h imageSrc), (is_empty h image)|].
    intros _. split; plookup_last.
  - split; [intros _ _ N; by rewrite N in Epoints|].
    split; [|intros E; by rewrite E in Eicon].
    intros _ _ _. plookup_last.
  - split; [|split; [intros _ _ N; by rewrite N in Epoints|intros E; by rewrite E in Eicon]].
    intros _ _ _. plookup_last.
Qed.

(** ** Prefixed keys and their fallback *)

Lemma closed_record_prefix (h0 h : heap) l :
  h0 `prefix_of` h -> l < length h0 -> closed_record h0 l -> closed_record h l.
Proof.
  intros Hp Hl Hc k. rewrite (heap_get_prefix h0 h) by done.
  specialize (Hc k). destruct (heap_get h0 l k); try done.
  simpl in *. apply prefix_length in Hp. lia.
Qed.

Lemma fill_denotes (h0 h : heap) vlStyle prefix :
  h0 `prefix_of` h -> vlStyle < length h0 -> closed_record h0 vlStyle ->
  literal_pattern prefix = true ->
  exists v h',
    createFillStyle vlStyle prefix h = Ret v h' /\ h `prefix_of` h' /\
    denotes h h' v (fill_view h0 vlStyle prefix).
Proof.
  intros Hp Hl Hc Hlit.
  assert (vlStyle < length h) as Hl'.
  { apply prefix_length in Hp. lia. }
  rewrite createFillStyle_run by done.
  destruct (run_view_denotes h (fill_view h vlStyle prefix)) as (v & h' & -> & Hp' & Hd & _).
  exists v, h'. rewrite <- (fill_view_stable h0 h) by done. done.
Qed.

Lemma stroke_denotes (h0 h : heap) vlStyle prefix :
  h0 `prefix_of` h -> vlStyle < length h0 -> closed_record h0 vlStyle ->
  literal_pattern prefix = true ->
  exists v h',
    createStrokeStyle vlStyle prefix h = Ret v h' /\ h `prefix_of` h' /\
    denotes h h' v (stroke_view h0 vlStyle prefix).
Proof.
  intros Hp Hl Hc Hlit.
  assert (vlStyle < length h) as Hl'.
  { apply prefix_length in Hp. lia. }
  rewrite createStrokeStyle_run by done.
  destruct (run_view_denotes h (stroke_view h vlStyle prefix))
    as (v & h' & -> & Hp' & Hd & _).
  exists v, h'. rewrite <- (stroke_view_stable h0 h) by done. done.
Qed.

Lemma fill_or_denotes (h0 h : heap) vlStyle prefix :
  h0 `prefix_of` h -> vlStyle < length h0 -> closed_record h0 vlStyle ->
  literal_pattern prefix = true ->
  exists v h',
    orElse (createFillStyle vlStyle prefix) (createFillStyle vlStyle "") h = Ret v h' /\
    h `prefix_of` h' /\
    denotes h h' v (or_view (fill_view h0 vlStyle prefix) (fill_view h0 vlStyle "")).
Proof.
  intros Hp Hl Hc Hlit.
  assert (vlStyle < length h) as Hl'.
  { apply prefix_length in Hp. lia. }
  pose proof (closed_record_prefix h0 h vlStyle Hp Hl Hc) as Hc'.
  destruct (orElse_denotes createFillStyle fill_view CFill
              (fun h p => heap_get h vlStyle (addPrefix p "fill"))
              (fun h p => fill_options p (heap_props h vlStyle)) h vlStyle prefix)
    as (v & h' & Hrun & Hp' & Hd); try done.
  - intros; by apply createFillStyle_run.
  - intros; by apply fill_view_stable.
  - exists v, h'. by rewrite <- !(fill_view_stable h0 h).
Qed.

Lemma stroke_or_denotes (h0 h : heap) vlStyle prefix :
  h0 `prefix_of` h -> vlStyle < length h0 -> closed_record h0 vlStyle ->
  literal_pattern prefix = true ->
  exists v h',
    orElse (createStrokeStyle vlStyle prefix) (createStrokeStyle vlStyle "") h = Ret v h' /\
    h `prefix_of` h' /\
    denotes h h' v (or_view (stroke_view h0 vlStyle prefix) (stroke_view h0 vlStyle "")).
Proof.
  intros Hp Hl Hc Hlit.
  assert (vlStyle < length h) as Hl'.
  { apply prefix_length in Hp. lia. }
  pose proof (closed_record_prefix h0 h vlStyle Hp Hl Hc) as Hc'.
  destruct (orElse_denotes createStrokeStyle stroke_view CStroke
              (fun h p => heap_get h vlStyle (addPrefix p "stroke"))
              (fun h p => stroke_options p (heap_props h vlStyle)) h vlStyle prefix)
    as (v & h' & Hrun & Hp' & Hd); try done.
  - intros; by apply createStrokeStyle_run.
  - intros; by apply stroke_view_stable.
  - exists v, h'. by rewrite <- !(stroke_view_stable h0 h).
Qed.

Lemma denotes_insert (h h' : heap) v d a o :
  denotes h h' v d -> a < length h -> denotes h (<[a := o]> h') v d.
Proof.
  destruct d as [c|c opts|]; simpl; [done| |done].
  intros (r & -> & Hr & Hl) Ha. exists r. split; [done|]. split; [done|].
  rewrite list_lookup_insert_ne by lia. done.
Qed.

Lemma pset_all_keep src ps : ps <> [] -> pset_all src ps <> [].
Proof.
  unfold pset_all. revert ps. induction src as [|kv src IH]; intros ps H; [done|].
  simpl. apply IH, pset_not_nil.
Qed.

(** The end of [createTextStyle]: the options gathered apart are copied
    onto [textStyle], and the text is built from it. *)
Lemma text_finish (h5 : heap) n0 n1 text picked rest :
  h5 !! n0 = Some (Plain [("text", text)]) ->
  h5 !! n1 = Some (Plain picked) ->
  (let* r := alloc (Plain rest) in
   run assign (VRef n0) (VRef n1) in
   run assign (VRef n0) (VRef r) in
   let* empty := isEmpty (VRef n0) in
   if negb empty then new CText (VRef n0) else ret VUndefined) h5 =
  let opts := pset_all rest (pset_all picked [("text", text)]) in
  Ret (VRef (S (length h5)))
    (<[n0 := Plain opts]> (h5 ++ [Plain rest]) ++ [Instance CText opts []]).
Proof.
  intros H0 H1.
  assert (n0 < length h5) as Hn0 by (by eapply lookup_lt_Some).
  assert (n1 < length h5) as Hn1 by (by eapply lookup_lt_Some).
  set (h6 := h5 ++ [Plain rest]).
  set (h7 := <[n0 := Plain (pset_all picked [("text", text)])]> h6).
  set (opts := pset_all rest (pset_all picked [("text", text)])).
  assert (length h6 = S (length h5)) as Hlen6.
  { unfold h6. rewrite length_app. simpl. lia. }
  assert (heap_props h6 n1 = picked) as Hsrc1.
  { unfold heap_props, h6. by rewrite lookup_app_l, H1 by done. }
  assert (heap_assign n0 picked h6 = h7) as Hassign1.
  { unfold heap_assign, h6. by rewrite lookup_app_l, H0 by done. }
  assert (heap_props h7 (length h5) = rest) as Hsrc2.
  { unfold heap_props, h7, h6. rewrite list_lookup_insert_ne by lia.
    rewrite lookup_app_r by done. by rewrite Nat.sub_diag. }
  assert (heap_assign n0 rest h7 = <[n0 := Plain opts]> h6) as Hassign2.
  { unfold heap_assign, h7. rewrite list_lookup_insert_eq by lia.
    by rewrite list_insert_insert_eq. }
  assert ((<[n0 := Plain opts]> h6) !! n0 = Some (Plain opts)) as Hopts.
  { apply list_lookup_insert_eq. lia. }
  assert (opts <> []) as Hne.
  { by apply pset_all_keep, pset_all_keep. }
  rewrite bind_run. cbn [alloc]. fold h6.
  rewrite bind_run. cbn [assign]. rewrite bind_run. cbn [gets modify].
  rewrite Hsrc1, Hassign1.
  rewrite bind_run. cbn [assign]. rewrite bind_run. cbn [gets modify].
  rewrite Hsrc2, Hassign2.
  rewrite bind_run. cbn [isEmpty gets is_empty]. unfold no_keys. rewrite Hopts.
  destruct opts as [|kv opts'] eqn:E; [done|]. cbn [negb new].
  rewrite bind_run. cbn [gets]. unfold heap_props. rewrite Hopts.
  cbn [own_props rejected].
  rewrite bind_run. cbn [alloc ret].
  by rewrite length_insert, Hlen6.
Qed.

Lemma pick_run object ks (h : heap) :
  pick object ks h =
    Ret (VRef (length h))
      (h ++ [Plain (pset_all (map (fun k => (k, heap_get h object k)) ks) [])]).
Proof. reflexivity. Qed.

Lemma pget_pset_eq k v ps : pget (pset k v ps) k = v.
Proof. unfold pget. by rewrite plookup_pset_eq. Qed.

Lemma pget_pset_ne k k' v ps : k <> k' -> pget (pset k v ps) k' = pget ps k'.
Proof. intros. unfold pget. by rewrite plookup_pset_ne. Qed.

Ltac pget_last :=
  cbn [pset_all fold_left fst snd];
  repeat (rewrite pget_pset_ne by done);
  apply pget_pset_eq.

(** C5: for a record of the heap whose references point to objects of the
    heap, the text takes its fill from the [text]-prefixed keys when they
    yield one and from the unprefixed keys otherwise, and its stroke
    likewise; its background fill and stroke come from the
    [textBackground]-prefixed keys alone.  The options the image
    constructor is called on take their fill and stroke from the
    [image]-prefixed keys, with the same fallback; the image is built from
    these options, or the error of the [Icon] constructor is thrown. *)
Theorem prefix_fallback (h : heap) (vlStyle : loc) :
  vlStyle < length h -> closed_record h vlStyle ->
  (nullish (heap_get h vlStyle "text") = false ->
   instance_of h (heap_get h vlStyle "text") CText = false ->
   exists r h' opts,
     createTextStyle vlStyle h = Ret (VRef r) h' /\
     h' !! r = Some (Instance CText opts []) /\
     denotes h h' (pget opts "fill")
       (or_view (fill_view h vlStyle "text") (fill_view h vlStyle "")) /\
     denotes h h' (pget opts "stroke")
       (or_view (stroke_view h vlStyle "text") (stroke_view h vlStyle "")) /\
     denotes h h' (pget opts "backgroundFill") (fill_view h vlStyle "textBackground") /\
     denotes h h' (pget opts "backgroundStroke")
       (stroke_view h vlStyle "textBackground")) /\
  (is_empty h (heap_get h vlStyle "imageSrc") && is_empty h (heap_get h vlStyle "image")
   && is_empty h (heap_get h vlStyle "imagePoints")
   && negb (isNumeric (heap_get h vlStyle "imageRadius")) = false ->
   instance_of h (heap_get h vlStyle "image") CImage = false ->
   exists h' opts,
     createImageStyle vlStyle h =
       match rejected (image_ctor h vlStyle) opts with
       | Some e => Throw e (h' ++ [Plain opts])
       | None =>
           Ret (VRef (S (length h')))
             (h' ++ [Plain opts; Instance (image_ctor h vlStyle) opts []])
       end /\
     h `prefix_of` h' /\
     denotes h h' (pget opts "fill")
       (or_view (fill_view h vlStyle "image") (fill_view h vlStyle "")) /\
     denotes h h' (pget opts "stroke")
       (or_view (stroke_view h vlStyle "image") (stroke_view h vlStyle ""))).
Proof.
  intros Hvl Hclosed. split.
  - intros Hnull Hinst. unfold createTextStyle.
    rewrite bind_run. cbn [get gets]. rewrite Hnull.
    rewrite bind_run. cbn [instanceof gets]. rewrite Hinst.
    rewrite bind_run. cbn [alloc]. rewrite bind_run. cbn [gets].
    rewrite bind_run, pick_run. cbv beta iota.
    set (text := heap_get h vlStyle "text").
    set (h1 := h ++ [Plain [("text", text)]]).
    set (picked := pset_all _ []).
    set (h2 := h1 ++ [Plain picked]).
    assert (h `prefix_of` h2) as Hp2.
    { unfold h2, h1. rewrite <- app_assoc. by eexists. }
    assert (h2 !! length h = Some (Plain [("text", text)])) as H0.
    { unfold h2, h1. rewrite lookup_app_l by (rewrite length_app; simpl; lia).
      rewrite lookup_app_r by done. by rewrite Nat.sub_diag. }
    assert (h2 !! length h1 = Some (Plain picked)) as H1.
    { unfold h2. rewrite lookup_app_r by done. by rewrite Nat.sub_diag. }
    destruct (fill_or_denotes h h2 vlStyle "text") as (f & h3 & Hf' & Hp3 & Hf); [done..|].
    rewrite bind_run, Hf'.
    destruct (stroke_or_denotes h h3 vlStyle "text") as (s & h4 & Hs' & Hp4 & Hs);
      [by etrans|done..|].
    rewrite bind_run, Hs'.
    destruct (fill_denotes h h4 vlStyle "textBackground") as (bf & h5 & Hbf' & Hp5 & Hbf);
      [transitivity h2; [done|]; by transitivity h3|done..|].
    rewrite bind_run, Hbf'.
    destruct (stroke_denotes h h5 vlStyle "textBackground")
      as (bs & h6 & Hbs' & Hp6 & Hbs);
      [transitivity h2; [done|]; transitivity h3; [done|]; by transitivity h4|done..|].
    rewrite bind_run, Hbs'.
    assert (h2 `prefix_of` h6) as Hp26.
    { transitivity h3; [done|]. transitivity h4; [done|]. by transitivity h5. }
    rewrite (text_finish h6 (length h) (length h1) text picked)
      by (by eapply prefix_lookup_Some).
    cbn zeta. set (rest := pset_all _ []).
    set (opts := pset_all rest (pset_all picked [("text", text)])).
    set (h' := <[length h := Plain opts]> (h6 ++ [Plain rest]) ++ [Instance CText opts []]).
    assert (forall base hm v d, h2 `prefix_of` base -> hm `prefix_of` h6 ->
              denotes base hm v d -> denotes h h' v d) as Hcarry.
    { intros base hm v d Hb Hm Hd. unfold h'.
      eapply denotes_mono; [|exact Hp2|by eexists].
      apply denotes_insert;
        [|apply lookup_lt_Some in H0; apply prefix_length in Hb; lia].
      eapply denotes_mono; [exact Hd|done|]. etrans; [exact Hm|by eexists]. }
    exists (S (length h6)), h', opts. split; [done|]. split.
    { unfold h'. rewrite lookup_app_r by (rewrite length_insert, length_app; simpl; lia).
      rewrite length_insert, length_app. simpl.
      by replace (S (length h6) - (length h6 + 1)) with 0 by lia. }
    assert (pget opts "fill" = f) as -> by reflexivity.
    assert (pget opts "stroke" = s) as -> by reflexivity.
    assert (pget opts "backgroundFill" = bf) as -> by reflexivity.
    assert (pget opts "backgroundStroke" = bs) as -> by reflexivity.
    split; [|split; [|split]].
    + apply (Hcarry h2 h3); [done| |done].
      transitivity h4; [done|]. by transitivity h5.
    + apply (Hcarry h3 h4); [done| |done]. by transitivity h5.
    + apply (Hcarry h4 h5); [by transitivity h3|done|done].
    + apply (Hcarry h5 h6); [|done|done].
      transitivity h3; [done|]. by transitivity h4.
  - intros Hsome Hinst. unfold createImageStyle, image_ctor.
    do 7 (rewrite bind_run; cbn [get gets isEmpty]). rewrite Hsome.
    rewrite bind_run. cbn [instanceof gets]. rewrite Hinst.
    do 2 (rewrite bind_run; cbn [gets]).
    assert (forall o, vlStyle < length (h ++ [o])) as Hvl1.
    { intros o. rewrite length_app. lia. }
    assert (forall o, h `prefix_of` h ++ [o]) as Hpre by (intros; by eexists).
    rewrite bind_run.
    destruct (negb _ || negb _); [|destruct (negb (nullish _))].
    all: rewrite bind_run; cbn [alloc ret].
    1: match goal with |- context [h ++ [Plain ?x]] =>
         destruct (image_tail (h ++ [Plain x]) vlStyle (CIcon, length h) (Hvl1 _))
           as (f & h2 & s & h3 & Hf' & Hp2 & Hs' & Hp3 & Hrun);
         destruct (fill_or_denotes h (h ++ [Plain x]) vlStyle "image")
           as (f0 & h20 & Hf0 & _ & Hf); [done..|]
       end.
    2: match goal with |- context [h ++ [Plain ?x]] =>
         destruct (image_tail (h ++ [Plain x]) vlStyle (CRegularShape, length h) (Hvl1 _))
           as (f & h2 & s & h3 & Hf' & Hp2 & Hs' & Hp3 & Hrun);
         destruct (fill_or_denotes h (h ++ [Plain x]) vlStyle "image")
           as (f0 & h20 & Hf0 & _ & Hf); [done..|]
       end.
    3: match goal with |- context [h ++ [Plain ?x]] =>
         destruct (image_tail (h ++ [Plain x]) vlStyle (CCircle, length h) (Hvl1 _))
           as (f & h2 & s & h3 & Hf' & Hp2 & Hs' & Hp3 & Hrun);
         destruct (fill_or_denotes h (h ++ [Plain x]) vlStyle "image")
           as (f0 & h20 & Hf0 & _ & Hf); [done..|]
       end.
    all: rewrite Hf' in Hf0; injection Hf0 as <- <-.
    all: destruct (stroke_or_denotes h h2 vlStyle "image")
           as (s0 & h30 & Hs0 & _ & Hs); [etrans; [apply Hpre|exact Hp2]|done..|].
    all: rewrite Hs' in Hs0; injection Hs0 as <- <-.
    all: cbn zeta in Hrun; cbn [fst snd] in Hrun.
    all: eexists h3, _; split; [exact Hrun|].
    all: split; [etrans; [apply Hpre|]; by transitivity h2|].
    all: split.
    all: try (replace (pget _ "fill") with f by (symmetry; pget_last);
              eapply denotes_mono; [exact Hf|apply Hpre|exact Hp3]).
    all: replace (pget _ "stroke") with s by (symmetry; pget_last);
         eapply denotes_mono;
           [exact Hs|etrans; [apply Hpre|exact Hp2]|done].
Qed.

(** ** The aggregate compiler *)

Lemma createFillStyle_returns (h : heap) vlStyle prefix :
  vlStyle < length h -> literal_pattern prefix = true ->
  exists v h', createFillStyle vlStyle prefix h = Ret v h' /\ h `prefix_of` h'.
Proof.
  intros Hvl Hlit. rewrite createFillStyle_run by done.
  destruct (run_view_denotes h (fill_view h vlStyle prefix)) as (v & h' & -> & Hp & _).
  by exists v, h'.
Qed.

Lemma createStrokeStyle_returns (h : heap) vlStyle prefix :
  vlStyle < length h -> literal_pattern prefix = true ->
  exists v h', createStrokeStyle vlStyle prefix h = Ret v h' /\ h `prefix_of` h'.
Proof.
  intros Hvl Hlit. rewrite createStrokeStyle_run by done.
  destruct (run_view_denotes h (stroke_view h vlStyle prefix)) as (v & h' & -> & Hp & _).
  by exists v, h'.
Qed.

Lemma prefix_lt (h h' : heap) l : h `prefix_of` h' -> l < length h -> l < length h'.
Proof. intros Hp Hl. apply prefix_length in Hp. lia. Qed.

Lemma createTextStyle_returns (h : heap) vlStyle :
  vlStyle < length h ->
  exists v h', createTextStyle vlStyle h = Ret v h' /\ h `prefix_of` h'.
Proof.
  intros Hvl. unfold createTextStyle.
  rewrite bind_run. cbn [get gets].
  destruct (nullish _); [by exists VUndefined, h|].
  rewrite bind_run. cbn [instanceof gets].
  destruct (instance_of h _ CText); [by eexists _, h|].
  rewrite bind_run. cbn [alloc]. rewrite bind_run. cbn [gets].
  rewrite bind_run, pick_run. cbv beta iota.
  set (text := heap_get h vlStyle "text").
  set (h1 := h ++ [Plain [("text", text)]]).
  set (picked := pset_all _ []).
  set (h2 := h1 ++ [Plain picked]).
  assert (h `prefix_of` h2) as Hp2.
  { unfold h2, h1. rewrite <- app_assoc. by eexists. }
  assert (h2 !! length h = Some (Plain [("text", text)])) as H0.
  { unfold h2, h1. rewrite lookup_app_l by (rewrite length_app; simpl; lia).
    rewrite lookup_app_r by done. by rewrite Nat.sub_diag. }
  assert (h2 !! length h1 = Some (Plain picked)) as H1.
  { unfold h2. rewrite lookup_app_r by done. by rewrite Nat.sub_diag. }
  destruct (orElse_returns createFillStyle fill_view h2 vlStyle "text")
    as (f & h3 & Hf & Hp3);
    [intros; by apply createFillStyle_run|by eapply prefix_lt|done|].
  rewrite bind_run, Hf.
  assert (h2 `prefix_of` h3) as Hp23 by done.
  destruct (orElse_returns createStrokeStyle stroke_view h3 vlStyle "text")
    as (s & h4 & Hs & Hp4);
    [intros; by apply createStrokeStyle_run| |done|].
  { eapply prefix_lt; [|done]. by transitivity h2. }
  rewrite bind_run, Hs.
  assert (h2 `prefix_of` h4) as Hp24 by (by transitivity h3).
  destruct (createFillStyle_returns h4 vlStyle "textBackground")
    as (bf & h5 & Hbf & Hp5); [|done|].
  { eapply prefix_lt; [|done]. by transitivity h2. }
  rewrite bind_run, Hbf.
  assert (h2 `prefix_of` h5) as Hp25 by (by transitivity h4).
  destruct (createStrokeStyle_returns h5 vlStyle "textBackground")
    as (bs & h6 & Hbs & Hp6); [|done|].
  { eapply prefix_lt; [|done]. by transitivity h2. }
  rewrite bind_run, Hbs.
  assert (h2 `prefix_of` h6) as Hp26 by (by transitivity h5).
  rewrite (text_finish h6 (length h) (length h1) text picked)
    by (by eapply prefix_lookup_Some).
  cbn zeta. eexists _, _. split; [done|].
  apply prefix_app_r, prefix_insert_ge; [|done].
  apply prefix_app_r. by transitivity h2.
Qed.

Lemma createImageStyle_built (h : heap) vlStyle :
  vlStyle < length h ->
  is_empty h (heap_get h vlStyle "imageSrc") && is_empty h (heap_get h vlStyle "image")
  && is_empty h (heap_get h vlStyle "imagePoints")
  && negb (isNumeric (heap_get h vlStyle "imageRadius")) = false ->
  instance_of h (heap_get h vlStyle "image") CImage = false ->
  exists fill stroke h',
    h `prefix_of` h' /\
    createImageStyle vlStyle h =
      let opts := image_options h vlStyle fill stroke in
      match rejected (image_ctor h vlStyle) opts with
      | Some e => Throw e (h' ++ [Plain opts])
      | None =>
          Ret (VRef (S (length h')))
            (h' ++ [Plain opts; Instance (image_ctor h vlStyle) opts []])
      end.
Proof.
  intros Hvl Hsome Hinst. unfold createImageStyle, image_options, image_ctor.
  do 7 (rewrite bind_run; cbn [get gets isEmpty]). rewrite Hsome.
  rewrite bind_run. cbn [instanceof gets]. rewrite Hinst.
  do 2 (rewrite bind_run; cbn [gets]).
  assert (forall o, vlStyle < length (h ++ [o])) as Hvl1.
  { intros o. rewrite length_app. lia. }
  assert (forall o, heap_props (h ++ [Plain o]) (length h) = o) as Hprops.
  { intros o. unfold heap_props. rewrite lookup_app_r by done.
    by rewrite Nat.sub_diag. }
  assert (forall o, h `prefix_of` h ++ [o]) as Hpre by (intros; by eexists).
  rewrite bind_run.
  destruct (negb _ || negb _); [|destruct (negb (nullish _))].
  all: rewrite bind_run; cbn [alloc ret].
  1: match goal with |- context [h ++ [Plain ?x]] =>
       destruct (image_tail (h ++ [Plain x]) vlStyle (CIcon, length h) (Hvl1 _))
         as (f & h2 & s & h3 & _ & Hp2 & _ & Hp3 & Hrun) end.
  2: match goal with |- context [h ++ [Plain ?x]] =>
       destruct (image_tail (h ++ [Plain x]) vlStyle (CRegularShape, length h) (Hvl1 _))
         as (f & h2 & s & h3 & _ & Hp2 & _ & Hp3 & Hrun) end.
  3: match goal with |- context [h ++ [Plain ?x]] =>
       destruct (image_tail (h ++ [Plain x]) vlStyle (CCircle, length h) (Hvl1 _))
         as (f & h2 & s & h3 & _ & Hp2 & _ & Hp3 & Hrun) end.
  all: cbn zeta in Hrun; cbn [fst snd] in Hrun; rewrite Hprops in Hrun.
  all: exists f, s, h3; split; [etrans; [apply Hpre|]; by transitivity h2|].
  all: exact Hrun.
Qed.

(** Every way [createImageStyle] ends. *)
Lemma createImageStyle_cases (h : heap) vlStyle :
  vlStyle < length h ->
  let nothing :=
    is_empty h (heap_get h vlStyle "imageSrc") && is_empty h (heap_get h vlStyle "image")
    && is_empty h (heap_get h vlStyle "imagePoints")
    && negb (isNumeric (heap_get h vlStyle "imageRadius")) in
  match createImageStyle vlStyle h with
  | Ret v h' =>
      h `prefix_of` h' /\
      if nothing then v = VUndefined
      else if instance_of h (heap_get h vlStyle "image") CImage
      then v = heap_get h vlStyle "image"
      else exists r fill stroke,
             v = VRef r /\ length h <= r /\
             h' !! r = Some (Instance (image_ctor h vlStyle)
                               (image_options h vlStyle fill stroke) [])
  | Throw e h' =>
      h `prefix_of` h' /\ nothing = false /\
      instance_of h (heap_get h vlStyle "image") CImage = false /\
      image_ctor h vlStyle = CIcon /\
      exists fill stroke, iconError (image_options h vlStyle fill stroke) = Some e
  end.
Proof.
  intros Hvl nothing. unfold nothing.
  destruct (_ && negb _) eqn:Hguard.
  { unfold createImageStyle.
    do 7 (rewrite bind_run; cbn [get gets isEmpty]). by rewrite Hguard. }
  destruct (instance_of h (heap_get h vlStyle "image") CImage) eqn:Hinst.
  { unfold createImageStyle.
    do 7 (rewrite bind_run; cbn [get gets isEmpty]). rewrite Hguard.
    rewrite bind_run. cbn [instanceof gets]. by rewrite Hinst. }
  destruct (createImageStyle_built h vlStyle Hvl Hguard Hinst)
    as (f & s & h' & Hp & ->). cbn zeta.
  destruct (rejected _ _) as [e|] eqn:Hrej.
  - split; [by apply prefix_app_r|]. do 2 (split; [done|]).
    unfold rejected in Hrej. destruct (image_ctor h vlStyle); try done. eauto.
  - split; [by apply prefix_app_r|]. exists (S (length h')), f, s.
    split; [done|]. split; [apply prefix_length in Hp; lia|]. apply lookup_built.
Qed.

(** C1, against the code: for a record of the heap, undefined comes back
    when the record has no key at all.  A record that has at least one
    never yields undefined: whatever its keys, [createStyle] builds a new
    [Style] whose options are the seven written in the source, unless the
    [Icon] constructor throws, which takes an [imageSrc] or an [image] on
    the record.  So a record without any style field yields a [Style]
    rather than undefined. *)
Theorem createStyle_builds (h : heap) (vlStyle : loc) :
  vlStyle < length h ->
  (no_keys h vlStyle = true -> createStyle vlStyle h = Ret VUndefined h) /\
  (no_keys h vlStyle = false ->
   match createStyle vlStyle h with
   | Ret v h' =>
       exists r opts,
         v = VRef r /\ length h <= r /\
         h' !! r = Some (Instance CStyle opts []) /\
         pkeys opts =
           ["text"; "fill"; "stroke"; "image"; "geometry"; "zIndex"; "renderer"]
   | Throw e h' =>
       (exists opts, iconError opts = Some e) /\
       nullish (heap_get h vlStyle "imageSrc") && nullish (heap_get h vlStyle "image")
       = false
   end) /\
  (no_keys h vlStyle = false ->
   nullish (heap_get h vlStyle "imageSrc") = true ->
   nullish (heap_get h vlStyle "image") = true ->
   exists r h' opts,
     createStyle vlStyle h = Ret (VRef r) h' /\
     length h <= r /\
     h' !! r = Some (Instance CStyle opts []) /\
     pkeys opts = ["text"; "fill"; "stroke"; "image"; "geometry"; "zIndex"; "renderer"]).
Proof.
  intros Hvl.
  assert (no_keys h vlStyle = false ->
    match createStyle vlStyle h with
    | Ret v h' =>
        exists r opts,
          v = VRef r /\ length h <= r /\
          h' !! r = Some (Instance CStyle opts []) /\
          pkeys opts =
            ["text"; "fill"; "stroke"; "image"; "geometry"; "zIndex"; "renderer"]
    | Throw e h' =>
        (exists opts, iconError opts = Some e) /\
        nullish (heap_get h vlStyle "imageSrc") && nullish (heap_get h vlStyle "image")
        = false
    end) as Hmatch.
  { intros Hkeys. unfold createStyle.
    rewrite bind_run. cbn [isEmpty gets is_empty]. rewrite Hkeys.
    destruct (createTextStyle_returns h vlStyle Hvl) as (text & h1 & Htext & Hp1).
    rewrite bind_run, Htext.
    destruct (createFillStyle_returns h1 vlStyle "") as (fill & h2 & Hfill & Hp2);
      [by eapply prefix_lt|done|].
    rewrite bind_run, Hfill.
    assert (h `prefix_of` h2) as Hp02 by (by transitivity h1).
    destruct (createStrokeStyle_returns h2 vlStyle "") as (stroke & h3 & Hstroke & Hp3);
      [by eapply prefix_lt|done|].
    rewrite bind_run, Hstroke.
    assert (h `prefix_of` h3) as Hp03 by (by transitivity h2).
    pose proof (createImageStyle_cases h3 vlStyle (prefix_lt h h3 vlStyle Hp03 Hvl))
      as Himage.
    rewrite bind_run.
    destruct (createImageStyle vlStyle h3) as [image h4|e h4].
    - destruct Himage as [Hp4 _].
      assert (h `prefix_of` h4) as Hp04 by (by transitivity h3).
      unfold createGeomStyle. exec.
      set (geometry := if isFunction (heap_get h4 vlStyle "geom")
                       then VFun (FStyleGeom vlStyle) else heap_get h4 vlStyle "geom").
      assert ((if isFunction (heap_get h4 vlStyle "geom")
               then ret (VFun (FStyleGeom vlStyle))
               else ret (heap_get h4 vlStyle "geom")) h4 = Ret geometry h4) as ->.
      { unfold geometry. by destruct (isFunction _). }
      exec. unfold no_keys, heap_props.
      rewrite !lookup_app_r by done. rewrite Nat.sub_diag.
      cbn [lookup list_lookup own_props].
      cbn [pset_all fold_left fst snd pset String.eqb Ascii.eqb Bool.eqb negb].
      exec. unfold heap_props.
      rewrite lookup_app_r by done. rewrite Nat.sub_diag.
      cbn [lookup list_lookup own_props].
      eexists _, _. split; [reflexivity|]. split; [|split].
      + apply prefix_length in Hp04. rewrite length_app. lia.
      + rewrite lookup_app_r by done. by rewrite Nat.sub_diag.
      + reflexivity.
    - destruct Himage as (_ & _ & _ & Hicon & f & s & He).
      split; [by eexists|].
      unfold image_ctor in Hicon.
      rewrite !(heap_get_prefix h h3 vlStyle) in Hicon by done.
      destruct (heap_get h vlStyle "imageSrc"), (heap_get h vlStyle "image");
        try done; simpl in Hicon; by destruct (nullish _). }
  split; [|split; [exact Hmatch|]].
  - intros Hkeys. unfold createStyle.
    rewrite bind_run. cbn [isEmpty gets is_empty]. by rewrite Hkeys.
  - intros Hkeys Hsrc Himg. specialize (Hmatch Hkeys).
    destruct (createStyle vlStyle h) as [v h'|e h'].
    + destruct Hmatch as (r & opts & -> & Hr & Hl & Hk). by exists r, h', opts.
    + destruct Hmatch as [_ Hno]. by rewrite Hsrc, Himg in Hno.
Qed.

Lemma closed_record_values (h : heap) l :
  Forall (fun kv => closed_value h kv.2) (heap_props h l) -> closed_record h l.
Proof.
  intros Hall k. unfold heap_get, pget.
  induction Hall as [|[k' v] ps Hv Hps IH]; simpl; [done|].
  by destruct (String.eqb k k').
Qed.

(** * Further properties of the module *)

(** ** The text and the image as they are built *)

Lemma createTextStyle_built (h : heap) vlStyle :
  vlStyle < length h ->
  nullish (heap_get h vlStyle "text") = false ->
  instance_of h (heap_get h vlStyle "text") CText = false ->
  exists fill stroke backgroundFill backgroundStroke r h',
    createTextStyle vlStyle h = Ret (VRef r) h' /\
    h `prefix_of` h' /\ length h <= r /\
    h' !! r = Some (Instance CText
      (text_options (heap_get h vlStyle) fill stroke backgroundFill backgroundStroke) []).
Proof.
  intros Hvl Hnull Hinst. unfold createTextStyle.
  rewrite bind_run. cbn [get gets]. rewrite Hnull.
  rewrite bind_run. cbn [instanceof gets]. rewrite Hinst.
  rewrite bind_run. cbn [alloc]. rewrite bind_run. cbn [gets].
  rewrite bind_run, pick_run. cbv beta iota. cbn [map].
  set (text := heap_get h vlStyle "text").
  set (h1 := h ++ [Plain [("text", text)]]).
  assert (h `prefix_of` h1) as Hp1 by (by eexists).
  rewrite !(heap_get_prefix h h1 vlStyle) by done.
  set (picked := pset_all _ []).
  set (h2 := h1 ++ [Plain picked]).
  assert (h `prefix_of` h2) as Hp2.
  { unfold h2, h1. rewrite <- app_assoc. by eexists. }
  assert (h2 !! length h = Some (Plain [("text", text)])) as H0.
  { unfold h2, h1. rewrite lookup_app_l by (rewrite length_app; simpl; lia).
    rewrite lookup_app_r by done. by rewrite Nat.sub_diag. }
  assert (h2 !! length h1 = Some (Plain picked)) as H1.
  { unfold h2. rewrite lookup_app_r by done. by rewrite Nat.sub_diag. }
  destruct (orElse_returns createFillStyle fill_view h2 vlStyle "text")
    as (f & h3 & Hf & Hp3);
    [intros; by apply createFillStyle_run|by eapply prefix_lt|done|].
  rewrite bind_run, Hf.
  destruct (orElse_returns createStrokeStyle stroke_view h3 vlStyle "text")
    as (s & h4 & Hs & Hp4);
    [intros; by apply createStrokeStyle_run| |done|].
  { eapply prefix_lt; [|done]. by transitivity h2. }
  rewrite bind_run, Hs.
  assert (h2 `prefix_of` h4) as Hp24 by (by transitivity h3).
  destruct (createFillStyle_returns h4 vlStyle "textBackground")
    as (bf & h5 & Hbf & Hp5); [|done|].
  { eapply prefix_lt; [|done]. by transitivity h2. }
  rewrite bind_run, Hbf.
  assert (h2 `prefix_of` h5) as Hp25 by (by transitivity h4).
  destruct (createStrokeStyle_returns h5 vlStyle "textBackground")
    as (bs & h6 & Hbs & Hp6); [|done|].
  { eapply prefix_lt; [|done]. by transitivity h2. }
  rewrite bind_run, Hbs.
  assert (h2 `prefix_of` h6) as Hp26 by (by transitivity h5).
  assert (h `prefix_of` h6) as Hp06 by (by transitivity h2).
  rewrite (text_finish h6 (length h) (length h1) text picked)
    by (by eapply prefix_lookup_Some).
  cbn zeta. exists f, s, bf, bs. eexists _, _. split; [reflexivity|].
  split; [|split].
  - apply prefix_app_r, prefix_insert_ge; [|done]. by apply prefix_app_r.
  - apply prefix_length in Hp06. lia.
  - rewrite lookup_app_r by (rewrite length_insert, length_app; simpl; lia).
    rewrite length_insert, length_app. simpl.
    by replace (S (length h6) - (length h6 + 1)) with 0 by lia.
Qed.

Lemma plookup_pset_all_other k src ps :
  ~ In k (map fst src) -> plookup k (pset_all src ps) = plookup k ps.
Proof.
  unfold pset_all. revert ps. induction src as [|[k0 v0] src IH]; intros ps Hk; [done|].
  simpl in *. rewrite IH by (intros ?; apply Hk; by right).
  apply plookup_pset_ne. intros ->. apply Hk. by left.
Qed.

(** ** The options of a text *)

(** X1: without a [text] the text compiler yields undefined and adds no
    object, whatever other text keys the record has.  With one, the text
    it builds has all seventeen options: the twelve flat keys under their
    names, the value being the one of the record (undefined for a key the
    record lacks), the font, and the four sub-styles. *)
Theorem text_key_aliasing (h : heap) (vlStyle : loc) :
  vlStyle < length h ->
  (nullish (heap_get h vlStyle "text") = true ->
   createTextStyle vlStyle h = Ret VUndefined h) /\
  (nullish (heap_get h vlStyle "text") = false ->
   instance_of h (heap_get h vlStyle "text") CText = false ->
   exists r h' opts,
     createTextStyle vlStyle h = Ret (VRef r) h' /\
     length h <= r /\
     h' !! r = Some (Instance CText opts []) /\
     (forall k a, In (k, a) text_aliases ->
        plookup a opts = Some (heap_get h vlStyle k)) /\
     plookup "font" opts = Some (text_font (heap_get h vlStyle)) /\
     pkeys opts =
       ["text"; "textAlign"; "textBaseline"; "font"; "fill"; "stroke"; "scale";
        "rotation"; "offsetX"; "offsetY"; "rotateWithView"; "padding"; "maxAngle";
        "overflow"; "placement"; "backgroundFill"; "backgroundStroke"]).
Proof.
  intros Hvl. split.
  - intros Hnull. unfold createTextStyle. rewrite bind_run. cbn [get gets].
    by rewrite Hnull.
  - intros Hnull Hinst.
    destruct (createTextStyle_built h vlStyle Hvl Hnull Hinst)
      as (f & s & bf & bs & r & h' & Hrun & _ & Hr & Hl).
    exists r, h', (text_options (heap_get h vlStyle) f s bf bs).
    split; [exact Hrun|]. split; [exact Hr|]. split; [exact Hl|].
    split; [|split; reflexivity].
    intros k a Hin. unfold text_aliases in Hin. simpl in Hin.
    repeat (destruct Hin as [[= <- <-]|Hin]; [reflexivity|]). destruct Hin.
Qed.

(** ** The options of an image *)

(** X2: the options the image constructor is called on take the whole
    record along: they hold every key of the record, with the record's
    value, except for the names the compiler writes itself.  Those are the
    aliases of the constructor at hand, which hold the value of their flat
    key, and [fill], [stroke] and [snapToPixel].  The image is built from
    these options, or the error of the [Icon] constructor is thrown. *)
Theorem image_options_spread (h : heap) (vlStyle : loc) :
  vlStyle < length h ->
  is_empty h (heap_get h vlStyle "imageSrc") && is_empty h (heap_get h vlStyle "image")
  && is_empty h (heap_get h vlStyle "imagePoints")
  && negb (isNumeric (heap_get h vlStyle "imageRadius")) = false ->
  instance_of h (heap_get h vlStyle "image") CImage = false ->
  exists h' opts,
    createImageStyle vlStyle h =
      match rejected (image_ctor h vlStyle) opts with
      | Some e => Throw e (h' ++ [Plain opts])
      | None =>
          Ret (VRef (S (length h')))
            (h' ++ [Plain opts; Instance (image_ctor h vlStyle) opts []])
      end /\
    h `prefix_of` h' /\
    (forall k a, In (k, a) (image_aliases (image_ctor h vlStyle)) ->
       plookup a opts = Some (heap_get h vlStyle k)) /\
    (forall k,
       ~ In k ("fill" :: "stroke" :: "snapToPixel"
               :: map snd (image_aliases (image_ctor h vlStyle))) ->
       plookup k opts = plookup k (heap_props h vlStyle)).
Proof.
  intros Hvl Hsome Hinst.
  destruct (createImageStyle_built h vlStyle Hvl Hsome Hinst)
    as (f & s & h' & Hp & Hrun).
  exists h', (image_options h vlStyle f s).
  split; [exact Hrun|]. split; [exact Hp|].
  unfold image_options. split.
  - intros k a Hin.
    destruct (image_ctor h vlStyle); simpl in Hin;
      repeat (destruct Hin as [[= <- <-]|Hin];
              [unfold image_aliases, icon_aliases, shape_aliases, circle_aliases;
               cbn [map]; plookup_last|]);
      destruct Hin.
  - intros k Hk.
    rewrite plookup_pset_all_other
      by (simpl; intros [<-|[<-|[<-|[]]]]; apply Hk; simpl; auto).
    apply plookup_pset_all_other. rewrite map_map. simpl.
    intros H. apply Hk. by do 3 right.
Qed.

(** ** The options of a style *)

Lemma createTextStyle_cases (h : heap) vlStyle :
  vlStyle < length h ->
  exists v h',
    createTextStyle vlStyle h = Ret v h' /\ h `prefix_of` h' /\
    (nullish (heap_get h vlStyle "text") = true -> v = VUndefined) /\
    (nullish (heap_get h vlStyle "text") = false ->
     if instance_of h (heap_get h vlStyle "text") CText
     then v = heap_get h vlStyle "text"
     else exists r opts,
            v = VRef r /\ length h <= r /\ h' !! r = Some (Instance CText opts [])).
Proof.
  intros Hvl.
  destruct (nullish (heap_get h vlStyle "text")) eqn:Hnull.
  { exists VUndefined, h. split; [|done].
    unfold createTextStyle. rewrite bind_run. cbn [get gets]. by rewrite Hnull. }
  destruct (instance_of h (heap_get h vlStyle "text") CText) eqn:Hinst.
  { exists (heap_get h vlStyle "text"), h. split; [|done].
    unfold createTextStyle. rewrite bind_run. cbn [get gets]. rewrite Hnull.
    rewrite bind_run. cbn [instanceof gets]. by rewrite Hinst. }
  destruct (createTextStyle_built h vlStyle Hvl Hnull Hinst)
    as (f & s & bf & bs & r & h' & Hrun & Hp & Hr & Hl).
  exists (VRef r), h'. split; [done|]. split; [done|]. split; [done|].
  intros _. by eexists _, _.
Qed.

Lemma is_empty_prefix (h h' : heap) v :
  h `prefix_of` h' -> closed_value h v -> is_empty h' v = is_empty h v.
Proof.
  intros [k ->]. destruct v; try done. simpl. intros Hv. unfold no_keys.
  by rewrite lookup_app_l.
Qed.

Lemma instance_of_closed (h h' : heap) v c :
  h `prefix_of` h' -> closed_value h v -> instance_of h' v c = instance_of h v c.
Proof.
  intros [k ->]. destruct v; try done. simpl. intros Hv. by rewrite lookup_app_l.
Qed.

Lemma image_ctor_prefix (h h' : heap) vlStyle :
  h `prefix_of` h' -> vlStyle < length h -> closed_record h vlStyle ->
  image_ctor h' vlStyle = image_ctor h vlStyle.
Proof.
  intros Hp Hvl Hclosed. unfold image_ctor.
  rewrite !(heap_get_prefix h h' vlStyle) by done.
  by rewrite !(is_empty_prefix h h') by (done || apply Hclosed).
Qed.

Lemma image_options_prefix (h h' : heap) vlStyle fill stroke :
  h `prefix_of` h' -> vlStyle < length h -> closed_record h vlStyle ->
  image_options h' vlStyle fill stroke = image_options h vlStyle fill stroke.
Proof.
  intros Hp Hvl Hclosed. unfold image_options.
  rewrite (image_ctor_prefix h h'), (heap_props_prefix h h') by done.
  do 2 f_equal. apply map_ext. intros p. by rewrite (heap_get_prefix h h').
Qed.

(** The options of the style that [createStyle] builds, entry by entry,
    and the one way in which it throws. *)
Lemma createStyle_parts (h : heap) (vlStyle : loc) :
  vlStyle < length h -> closed_record h vlStyle -> no_keys h vlStyle = false ->
  let nothing :=
    is_empty h (heap_get h vlStyle "imageSrc") && is_empty h (heap_get h vlStyle "image")
    && is_empty h (heap_get h vlStyle "imagePoints")
    && negb (isNumeric (heap_get h vlStyle "imageRadius")) in
  match createStyle vlStyle h with
  | Ret v h' =>
      exists text fill stroke image r,
        v = VRef r /\
        h `prefix_of` h' /\
        h' !! r = Some (Instance CStyle
          [("text", text); ("fill", fill); ("stroke", stroke); ("image", image);
           ("geometry", if isFunction (heap_get h vlStyle "geom")
                        then VFun (FStyleGeom vlStyle) else heap_get h vlStyle "geom");
           ("zIndex", heap_get h vlStyle "zIndex");
           ("renderer", heap_get h vlStyle "renderer")] []) /\
        denotes h h' fill (fill_view h vlStyle "") /\
        denotes h h' stroke (stroke_view h vlStyle "") /\
        (nullish (heap_get h vlStyle "text") = true -> text = VUndefined) /\
        (if nothing then image = VUndefined
         else if instance_of h (heap_get h vlStyle "image") CImage
         then image = heap_get h vlStyle "image"
         else exists ri f s,
                image = VRef ri /\ length h <= ri /\
                h' !! ri = Some (Instance (image_ctor h vlStyle)
                                   (image_options h vlStyle f s) []))
  | Throw e h' =>
      h `prefix_of` h' /\ nothing = false /\
      instance_of h (heap_get h vlStyle "image") CImage = false /\
      image_ctor h vlStyle = CIcon /\
      exists f s, iconError (image_options h vlStyle f s) = Some e
  end.
Proof.
  intros Hvl Hclosed Hkeys nothing. unfold nothing, createStyle.
  rewrite bind_run. cbn [isEmpty gets is_empty]. rewrite Hkeys.
  destruct (createTextStyle_cases h vlStyle Hvl) as (text & h1 & Htext & Hp1 & Hnotext & _).
  rewrite bind_run, Htext.
  destruct (fill_denotes h h1 vlStyle "") as (fill & h2 & Hfill & Hp2 & Hdf); [done..|].
  rewrite bind_run, Hfill.
  assert (h `prefix_of` h2) as Hp02 by (by transitivity h1).
  destruct (stroke_denotes h h2 vlStyle "") as (stroke & h3 & Hstroke & Hp3 & Hds);
    [done..|].
  rewrite bind_run, Hstroke.
  assert (h `prefix_of` h3) as Hp03 by (by transitivity h2).
  pose proof (createImageStyle_cases h3 vlStyle (prefix_lt h h3 vlStyle Hp03 Hvl))
    as Himg.
  cbn zeta in Himg.
  rewrite !(heap_get_prefix h h3 vlStyle) in Himg by done.
  rewrite !(is_empty_prefix h h3) in Himg by (done || apply Hclosed).
  rewrite (instance_of_closed h h3) in Himg by (done || apply Hclosed).
  rewrite (image_ctor_prefix h h3) in Himg by done.
  rewrite bind_run.
  destruct (createImageStyle vlStyle h3) as [image h4|e h4].
  - destruct Himg as [Hp4 Himg].
    assert (h `prefix_of` h4) as Hp04 by (by transitivity h3).
    unfold createGeomStyle. exec.
    rewrite !(heap_get_prefix h h4 vlStyle) by done.
    set (geometry := if isFunction (heap_get h vlStyle "geom")
                     then VFun (FStyleGeom vlStyle) else heap_get h vlStyle "geom").
    assert ((if isFunction (heap_get h vlStyle "geom")
             then ret (VFun (FStyleGeom vlStyle))
             else ret (heap_get h vlStyle "geom")) h4 = Ret geometry h4) as ->.
    { unfold geometry. by destruct (isFunction _). }
    exec. unfold no_keys, heap_props.
    rewrite !lookup_app_r by done. rewrite Nat.sub_diag.
    cbn [lookup list_lookup own_props].
    cbn [pset_all fold_left fst snd pset String.eqb Ascii.eqb Bool.eqb negb].
    exec. unfold heap_props.
    rewrite lookup_app_r by done. rewrite Nat.sub_diag.
    cbn [lookup list_lookup own_props].
    rewrite !(heap_get_prefix h h4 vlStyle) by done. fold geometry.
    set (olStyle := [("text", text); _; _; _; _; _; _]).
    assert (h4 `prefix_of` (h4 ++ [Plain olStyle]) ++ [Instance CStyle olStyle []]) as Hp4'.
    { rewrite <- app_assoc. by eexists. }
    exists text, fill, stroke, image. eexists. split; [reflexivity|].
    split; [by transitivity h4|].
    split; [rewrite lookup_app_r by done; by rewrite Nat.sub_diag|].
    split.
    { eapply denotes_mono; [exact Hdf|done|]. transitivity h3; [done|]. by transitivity h4. }
    split.
    { eapply denotes_mono; [exact Hds|done|]. by transitivity h4. }
    split; [done|].
    destruct (_ && negb _); [done|].
    destruct (instance_of h _ CImage); [done|].
    destruct Himg as (ri & f & s & -> & Hri & Hl).
    exists ri, f, s. split; [done|]. split.
    { apply prefix_length in Hp03. lia. }
    rewrite (image_options_prefix h h3) in Hl by done.
    by apply (prefix_lookup_Some h4).
  - destruct Himg as (Hp4 & Hno & Hinst & Hicon & f & s & He).
    split; [by transitivity h3|]. do 3 (split; [done|]).
    exists f, s. by rewrite (image_options_prefix h h3) in He.
Qed.

(** X3: for a record of the heap that has a key and whose references point
    to objects of the heap, [createStyle] ends in one of two ways.  It
    builds a style that has as [fill] and [stroke] the sub-styles of the
    unprefixed keys, as [zIndex] and [renderer] the values of the record,
    as [geometry] the [geom] of the record, wrapped when it is a function,
    as [text] undefined when the record has no text, and as [image]
    undefined when the record has no image key.  Or it throws the error of
    the [Icon] constructor, which takes a record whose [imageSrc] or
    [image] is not empty.  Nothing that was in the heap is changed. *)
Theorem createStyle_options (h : heap) (vlStyle : loc) :
  vlStyle < length h -> closed_record h vlStyle -> no_keys h vlStyle = false ->
  match createStyle vlStyle h with
  | Ret v h' =>
      exists r opts,
        v = VRef r /\
        h `prefix_of` h' /\
        h' !! r = Some (Instance CStyle opts []) /\
        denotes h h' (pget opts "fill") (fill_view h vlStyle "") /\
        denotes h h' (pget opts "stroke") (stroke_view h vlStyle "") /\
        pget opts "zIndex" = heap_get h vlStyle "zIndex" /\
        pget opts "renderer" = heap_get h vlStyle "renderer" /\
        pget opts "geometry" =
          (if isFunction (heap_get h vlStyle "geom") then VFun (FStyleGeom vlStyle)
           else heap_get h vlStyle "geom") /\
        (nullish (heap_get h vlStyle "text") = true -> pget opts "text" = VUndefined) /\
        (is_empty h (heap_get h vlStyle "imageSrc")
         && is_empty h (heap_get h vlStyle "image")
         && is_empty h (heap_get h vlStyle "imagePoints")
         && negb (isNumeric (heap_get h vlStyle "imageRadius")) = true ->
         pget opts "image" = VUndefined)
  | Throw e h' =>
      h `prefix_of` h' /\
      image_ctor h vlStyle = CIcon /\
      exists f s, iconError (image_options h vlStyle f s) = Some e
  end.
Proof.
  intros Hvl Hclosed Hkeys.
  pose proof (createStyle_parts h vlStyle Hvl Hclosed Hkeys) as Hparts.
  cbn zeta in Hparts.
  destruct (createStyle vlStyle h) as [v h'|e h'].
  - destruct Hparts
      as (text & fill & stroke & image & r & -> & Hp & Hl & Hf & Hs & Ht & Hi).
    eexists r, _. split; [reflexivity|]. split; [exact Hp|]. split; [exact Hl|].
    split; [exact Hf|]. split; [exact Hs|]. do 3 (split; [reflexivity|]).
    split; [exact Ht|].
    intros Hguard. rewrite Hguard in Hi. exact Hi.
  - destruct Hparts as (Hp & _ & _ & Hicon & Hrej). by split.
Qed.

(** X4: [createStyle] writes to no object that was in the heap before the
    call, the record it compiles included, and [createGeomStyle] leaves the
    heap as it is; this holds for any record and any outcome. *)
Theorem createStyle_leaves_input (h : heap) (vlStyle : loc) :
  h `prefix_of` final_heap (createStyle vlStyle h) /\
  final_heap (createGeomStyle vlStyle h) = h.
Proof.
  split.
  - pose proof (createStyle_respects h vlStyle h (reflexivity h)) as Hm.
    destruct (createStyle vlStyle h) as [a h'|e h']; simpl; [by destruct Hm|done].
  - unfold createGeomStyle. rewrite bind_run. cbn [get gets].
    by destruct (isFunction _).
Qed.

(** ** Keys that are present, and compiling again *)

Lemma stroke_options_nil prefix ps :
  stroke_options prefix ps = [] <->
  forall k a, In (k, a) stroke_aliases -> plookup (addPrefix prefix k) ps = None.
Proof.
  unfold stroke_options. rewrite options_of_nil. split.
  - intros Hnone k a Hin.
    destruct (plookup (addPrefix prefix k) ps) as [v|] eqn:E; [|done].
    assert (In (addPrefix prefix k) (pkeys ps)) as Hk.
    { apply plookup_pkeys. by rewrite E. }
    apply Hnone in Hk. by rewrite (stroke_alias_key prefix k a) in Hk.
  - intros Hnone k' Hin.
    destruct (stroke_alias prefix k') as [a|] eqn:E; [|done].
    apply stroke_alias_inv in E as (k & Hka & ->).
    apply plookup_pkeys in Hin. rewrite (Hnone k a Hka) in Hin. by destruct Hin.
Qed.

(** X5: it is the presence of a key that counts, not its value.  For a
    record of the heap, a prefix without syntax characters of regular
    expressions and no sub-style compiled beforehand, [createFillStyle] builds a [Fill] exactly
    when the record has the prefixed [fillColor] key, and
    [createStrokeStyle] a [Stroke] exactly when it has one of the seven
    prefixed stroke keys, be the value undefined; otherwise they yield
    undefined, and neither throws. *)
Theorem substyle_built_iff (h : heap) (vlStyle : loc) (prefix : string) :
  vlStyle < length h -> literal_pattern prefix = true ->
  (instance_of h (heap_get h vlStyle (addPrefix prefix "fill")) CFill = false ->
   exists v h',
     createFillStyle vlStyle prefix h = Ret v h' /\
     (v <> VUndefined <->
      is_Some (plookup (addPrefix prefix "fillColor") (heap_props h vlStyle))) /\
     (v <> VUndefined ->
      exists opts, v = VRef (S (length h)) /\ h' !! S (length h) = Some (Instance CFill opts []))) /\
  (instance_of h (heap_get h vlStyle (addPrefix prefix "stroke")) CStroke = false ->
   exists v h',
     createStrokeStyle vlStyle prefix h = Ret v h' /\
     (v <> VUndefined <->
      exists k a, In (k, a) stroke_aliases /\
        is_Some (plookup (addPrefix prefix k) (heap_props h vlStyle))) /\
     (v <> VUndefined ->
      exists opts, v = VRef (S (length h)) /\
        h' !! S (length h) = Some (Instance CStroke opts []))).
Proof.
  intros Hvl Hlit. split; intros Hinst.
  - rewrite createFillStyle_run by done.
    unfold fill_view, compiled_view, fill_options. rewrite Hinst.
    destruct (plookup _ _) as [c|]; simpl.
    + eexists _, _. split; [done|]. split; [split; [eauto|done]|].
      intros _. eexists. split; [done|]. apply lookup_built.
    + eexists _, _. split; [done|]. split; [|done].
      split; [done|]. by intros [? ?].
  - rewrite createStrokeStyle_run by done.
    unfold stroke_view, compiled_view. rewrite Hinst.
    destruct (stroke_options prefix (heap_props h vlStyle)) as [|kv opts] eqn:E; simpl.
    + eexists _, _. split; [done|]. split; [|done]. split; [done|].
      intros (k & a & Hin & Hk). rewrite (proj1 (stroke_options_nil _ _) E k a Hin) in Hk.
      by destruct Hk.
    + eexists _, _. split; [done|]. split.
      * split; [|done]. intros _. destruct kv as [n v].
        assert (is_Some (plookup n (stroke_options prefix (heap_props h vlStyle)))) as Hn.
        { rewrite E. simpl. rewrite String.eqb_refl. eauto. }
        apply stroke_options_keys in Hn as (k & Hin & Hk). by exists k, n.
      * intros _. eexists. split; [done|]. apply lookup_built.
Qed.

Lemma compiled_view_fresh c (h : heap) stored opts r1 h1 :
  run_view h (compiled_view c h stored opts) = Ret (VRef r1) h1 -> length h <= r1 ->
  instance_of h stored c = false /\ opts <> [] /\
  compiled_view c h stored opts = Built c opts /\
  r1 = S (length h) /\ h1 = h ++ [Plain opts; Instance c opts []].
Proof.
  unfold compiled_view. destruct (instance_of h stored c) eqn:Hinst.
  - simpl. intros [= -> <-] Hr. exfalso.
    simpl in Hinst. destruct (h !! r1) eqn:E; [|done].
    apply lookup_lt_Some in E. lia.
  - destruct opts as [|kv opts]; simpl; [done|]. by intros [= <- <-] _.
Qed.

Lemma heap_set_get_live (h : heap) l k v :
  l < length h -> heap_get (heap_set l k v h) l k = v.
Proof.
  intros Hl. destruct (lookup_lt_is_Some_2 h l Hl) as [o Ho].
  unfold heap_get, heap_set, heap_props. rewrite Ho.
  destruct o as [ps|c opts own]; rewrite list_lookup_insert_eq by done; simpl.
  all: apply pget_pset_eq.
Qed.

(** X6: a sub-style that was built is not handed back by the next call.
    For a record of the heap whose references point to objects of the heap
    and a prefix without syntax characters of regular expressions, once
    [createFillStyle] has built a [Fill], the next call on the same record
    builds a second [Fill], an object other than the first, from options
    with the same names and values; and so does [createStrokeStyle] for a
    [Stroke].  (Values are compared, not the identity of arrays.) *)
Theorem compiled_twice (h : heap) (vlStyle : loc) (prefix : string) :
  vlStyle < length h -> literal_pattern prefix = true -> closed_record h vlStyle ->
  (forall r1 h1,
     createFillStyle vlStyle prefix h = Ret (VRef r1) h1 -> length h <= r1 ->
     exists r2 h2 opts,
       createFillStyle vlStyle prefix h1 = Ret (VRef r2) h2 /\ r2 <> r1 /\
       h2 !! r1 = Some (Instance CFill opts []) /\
       h2 !! r2 = Some (Instance CFill opts [])) /\
  (forall r1 h1,
     createStrokeStyle vlStyle prefix h = Ret (VRef r1) h1 -> length h <= r1 ->
     exists r2 h2 opts,
       createStrokeStyle vlStyle prefix h1 = Ret (VRef r2) h2 /\ r2 <> r1 /\
       h2 !! r1 = Some (Instance CStroke opts []) /\
       h2 !! r2 = Some (Instance CStroke opts [])).
Proof.
  intros Hvl Hlit Hclosed.
  assert (forall c (o : props) (h1 : heap),
            h1 = h ++ [Plain o; Instance c o []] ->
            h `prefix_of` h1 /\ vlStyle < length h1 /\
            (h1 ++ [Plain o; Instance c o []]) !! S (length h) = Some (Instance c o []) /\
            S (length h1) <> S (length h)) as Hshape.
  { intros c o h1 ->. split; [by eexists|]. rewrite length_app. simpl.
    split; [lia|]. split; [|lia].
    rewrite lookup_app_l by (rewrite length_app; simpl; lia). apply lookup_built. }
  split; intros r1 h1 Hrun Hr.
  - rewrite createFillStyle_run in Hrun by done.
    pose proof Hrun as Hrun'. unfold fill_view in Hrun'.
    apply compiled_view_fresh in Hrun' as (_ & _ & Hview & -> & Hh1); [|done].
    destruct (Hshape CFill _ h1 Hh1) as (Hp & Hvl1 & Hl1 & Hne).
    rewrite createFillStyle_run by done.
    rewrite (fill_view_stable h h1) by done.
    unfold fill_view. rewrite Hview. simpl.
    eexists _, _, _. split; [done|]. split; [done|].
    split; [exact Hl1|apply lookup_built].
  - rewrite createStrokeStyle_run in Hrun by done.
    pose proof Hrun as Hrun'. unfold stroke_view in Hrun'.
    apply compiled_view_fresh in Hrun' as (_ & _ & Hview & -> & Hh1); [|done].
    destruct (Hshape CStroke _ h1 Hh1) as (Hp & Hvl1 & Hl1 & Hne).
    rewrite createStrokeStyle_run by done.
    rewrite (stroke_view_stable h h1) by done.
    unfold stroke_view. rewrite Hview. simpl.
    eexists _, _, _. split; [done|]. split; [done|].
    split; [exact Hl1|apply lookup_built].
Qed.

(** X7: the cache is the caller's to fill.  When the caller stores the
    [Fill] that [createFillStyle] has built under the prefixed [fill] key
    of the record, the next call hands that very object back and adds
    nothing to the heap; likewise for [createStrokeStyle] and the prefixed
    [stroke] key. *)
Theorem cached_by_caller (h : heap) (vlStyle : loc) (prefix : string) :
  vlStyle < length h -> literal_pattern prefix = true ->
  (forall r1 h1,
     createFillStyle vlStyle prefix h = Ret (VRef r1) h1 -> length h <= r1 ->
     let h2 := heap_set vlStyle (addPrefix prefix "fill") (VRef r1) h1 in
     createFillStyle vlStyle prefix h2 = Ret (VRef r1) h2) /\
  (forall r1 h1,
     createStrokeStyle vlStyle prefix h = Ret (VRef r1) h1 -> length h <= r1 ->
     let h2 := heap_set vlStyle (addPrefix prefix "stroke") (VRef r1) h1 in
     createStrokeStyle vlStyle prefix h2 = Ret (VRef r1) h2).
Proof.
  intros Hvl Hlit.
  assert (forall c (o : props) (h1 : heap) key,
            h1 = h ++ [Plain o; Instance c o []] ->
            let h2 := heap_set vlStyle key (VRef (S (length h))) h1 in
            heap_get h2 vlStyle key = VRef (S (length h)) /\
            instance_of h2 (VRef (S (length h))) c = true) as Hshape.
  { intros c o h1 key -> h2. split.
    - apply heap_set_get_live. rewrite length_app. lia.
    - unfold h2. simpl. rewrite heap_set_other by lia. rewrite lookup_built.
      by destruct c. }
  split; intros r1 h1 Hrun Hr h2.
  - rewrite createFillStyle_run in Hrun by done. unfold fill_view in Hrun.
    apply compiled_view_fresh in Hrun as (_ & _ & _ & -> & Hh1); [|done].
    destruct (Hshape CFill _ h1 (addPrefix prefix "fill") Hh1) as (Hget & Hinst).
    fold h2 in Hget, Hinst. unfold createFillStyle.
    rewrite bind_run. cbn [get gets]. rewrite bind_run. cbn [instanceof gets].
    by rewrite Hget, Hinst.
  - rewrite createStrokeStyle_run in Hrun by done. unfold stroke_view in Hrun.
    apply compiled_view_fresh in Hrun as (_ & _ & _ & -> & Hh1); [|done].
    destruct (Hshape CStroke _ h1 (addPrefix prefix "stroke") Hh1) as (Hget & Hinst).
    fold h2 in Hget, Hinst. unfold createStrokeStyle.
    rewrite bind_run. cbn [get gets]. rewrite bind_run. cbn [instanceof gets].
    by rewrite Hget, Hinst.
Qed.

(** ** Identities, set and read back *)

Lemma pset_pset k v1 v2 ps : pset k v2 (pset k v1 ps) = pset k v2 ps.
Proof.
  induction ps as [|[k' v'] ps IH]; simpl.
  - by rewrite String.eqb_refl.
  - destruct (String.eqb k k') eqn:E; simpl.
    + by rewrite String.eqb_refl.
    + by rewrite E, IH.
Qed.

Lemma heap_set_set (h : heap) l k v1 v2 :
  heap_set l k v2 (heap_set l k v1 h) = heap_set l k v2 h.
Proof.
  unfold heap_set at 2 3. destruct (h !! l) as [[ps|c opts own]|] eqn:E.
  - unfold heap_set. rewrite list_lookup_insert_eq by (by eapply lookup_lt_Some).
    by rewrite list_insert_insert_eq, pset_pset.
  - unfold heap_set. rewrite list_lookup_insert_eq by (by eapply lookup_lt_Some).
    by rewrite list_insert_insert_eq, pset_pset.
  - unfold heap_set. by rewrite E.
Qed.

Lemma has_prop_set (h : heap) l k v :
  has_prop h l k = true -> has_prop (heap_set l k v h) l k = true.
Proof.
  unfold has_prop, heap_set, heap_props.
  destruct (h !! l) as [[ps|c opts own]|] eqn:E; simpl; [| |done]; intros _.
  all: rewrite list_lookup_insert_eq by (by eapply lookup_lt_Some); simpl.
  all: by rewrite plookup_pset_eq.
Qed.

(** X8: an id that is set is the id that is read.  On a style with an
    [id] property, after [setStyleId] the getter yields the new id and does
    not throw, and of two ids set one after the other the second alone
    remains: the heap is the one the second call would have given by
    itself. *)
Theorem setStyleId_getStyleId (h : heap) (style : loc) (styleId : value) :
  has_prop h style "id" = true ->
  exists h',
    setStyleId style styleId h = Ret (VRef style) h' /\
    getStyleId style h' = Ret styleId h' /\
    forall styleId',
      setStyleId style styleId' h' = setStyleId style styleId' h.
Proof.
  intros Hhas. unfold setStyleId, getStyleId. exec. rewrite Hhas. exec.
  eexists. split; [reflexivity|]. exec.
  rewrite has_prop_set by done. split.
  - unfold get, gets. by rewrite heap_set_get.
  - intros styleId'. exec. rewrite has_prop_set, Hhas by done. exec.
    by rewrite heap_set_set.
Qed.

(** X9: [initializeStyle] does its work once.  On a style with an [id]
    property, a second call, whatever default id and uuid it is given,
    hands the style back and leaves the heap as the first call left it;
    the id the first call has set is never replaced. *)
Theorem initializeStyle_idempotent (h : heap) (style : loc)
    (defaultStyleId : value) (uuid : string) :
  has_prop h style "id" = true ->
  exists h1,
    initializeStyle style defaultStyleId uuid h = Ret (VRef style) h1 /\
    forall defaultStyleId' uuid',
      initializeStyle style defaultStyleId' uuid' h1 = Ret (VRef style) h1.
Proof.
  intros Hhas.
  assert (forall h0 : heap, has_prop h0 style "id" = true ->
            nullish (heap_get h0 style "id") = false ->
            forall d u, initializeStyle style d u h0 = Ret (VRef style) h0) as Hstays.
  { intros h0 Hh0 Hn d u. unfold initializeStyle, getStyleId. exec.
    rewrite Hh0. exec. by rewrite Hn. }
  destruct (nullish (heap_get h style "id")) eqn:Hnull.
  - unfold initializeStyle, getStyleId, setStyleId. exec. rewrite Hhas. exec.
    rewrite Hnull. exec. rewrite Hhas. exec.
    eexists. split; [done|]. apply Hstays.
    + by apply has_prop_set.
    + rewrite heap_set_get by done.
      destruct (truthy defaultStyleId) eqn:T; [|done]. by destruct defaultStyleId.
  - exists h. split; [by apply Hstays|]. by apply Hstays.
Qed.

(** X10: [initializeStyle] changes the [id] of the style and nothing else:
    whatever the outcome, every other property of the style and every
    other object of the heap is as before, and no object is added. *)
Theorem initializeStyle_frame (h : heap) (style : loc)
    (defaultStyleId : value) (uuid : string) :
  let h' := final_heap (initializeStyle style defaultStyleId uuid h) in
  length h' = length h /\
  (forall k, k <> "id" -> heap_get h' style k = heap_get h style k) /\
  (forall l, l <> style -> h' !! l = h !! l).
Proof.
  unfold initializeStyle, getStyleId, setStyleId. exec.
  destruct (has_prop h style "id") eqn:Hhas; exec; [|done].
  destruct (nullish (heap_get h style "id")); exec; [|done].
  rewrite Hhas. exec. split; [|split].
  - unfold heap_set. destruct (h !! style) as [[ps|c opts own]|]; by rewrite ?length_insert.
  - intros k Hk. by apply heap_set_get_ne.
  - intros l Hl. by apply heap_set_other.
Qed.

(** ** The default styles *)

Lemma heap_set_here (h t : heap) ps k v :
  heap_set (length h) k v (h ++ Plain ps :: t) = h ++ Plain (pset k v ps) :: t.
Proof.
  unfold heap_set. rewrite lookup_app_r by done. rewrite Nat.sub_diag. simpl.
  rewrite insert_app_r_alt by done. by rewrite Nat.sub_diag.
Qed.

Lemma heap_props_here (h t : heap) o : heap_props (h ++ o :: t) (length h) = own_props o.
Proof. unfold heap_props. rewrite lookup_app_r by done. by rewrite Nat.sub_diag. Qed.

Lemma heap_get_here (h t : heap) ps k :
  heap_get (h ++ Plain ps :: t) (length h) k = pget ps k.
Proof. unfold heap_get. by rewrite heap_props_here. Qed.

Lemma heap_props_beyond (h t : heap) i :
  heap_props (h ++ t) (length h + i) = heap_props t i.
Proof.
  unfold heap_props. rewrite lookup_app_r by lia.
  by replace (length h + i - length h) with i by lia.
Qed.

(** X11: the object of default edit styles has an array for each geometry
    type but LinearRing, and the arrays are made of four records that the
    call creates and shares: the two line records serve lines, polygons,
    circles and collections, a circle and a collection holding them twice;
    the point record serves points and collections.  Nothing of the heap
    before the call is changed. *)
Theorem defaultEditStyle_shares (GeometryType : geometry_type -> string) (h : heap) :
  (forall a b, GeometryType a = GeometryType b -> a = b) ->
  exists styles line1 line2 fill point h',
    defaultEditStyle GeometryType h = Ret (VRef styles) h' /\
    h `prefix_of` h' /\
    NoDup [styles; line1; line2; fill; point] /\
    Forall (fun l => length h <= l < length h') [styles; line1; line2; fill; point] /\
    (forall g, heap_get h' styles (GeometryType g) =
       match g with
       | LINE_STRING | MULTI_LINE_STRING => VArr [VRef line1; VRef line2]
       | POLYGON | MULTI_POLYGON => VArr [VRef fill; VRef line1; VRef line2]
       | CIRCLE => VArr [VRef fill; VRef line1; VRef line2; VRef line1; VRef line2]
       | POINT | MULTI_POINT => VArr [VRef point]
       | GEOMETRY_COLLECTION =>
           VArr [VRef fill; VRef line1; VRef line2; VRef line1; VRef line2; VRef point]
       | LINEAR_RING => VUndefined
       end) /\
    heap_props h' line1 =
      [("strokeColor", VArr [VNum (Fin 255%Q); VNum (Fin 255%Q); VNum (Fin 255%Q);
                             VNum (Fin 1%Q)]);
       ("strokeWidth", VNum (Fin 5%Q))] /\
    heap_props h' line2 =
      [("strokeColor", VArr [VNum (Fin 0%Q); VNum (Fin 153%Q); VNum (Fin 255%Q);
                             VNum (Fin 1%Q)]);
       ("strokeWidth", VNum (Fin 3%Q))] /\
    heap_props h' fill =
      [("fillColor", VArr [VNum (Fin 255%Q); VNum (Fin 255%Q); VNum (Fin 255%Q);
                           VNum (Fin (1 # 2)%Q)])] /\
    heap_props h' point =
      [("imageRadius", VNum (Fin 6%Q));
       ("fillColor", VArr [VNum (Fin 0%Q); VNum (Fin 153%Q); VNum (Fin 255%Q);
                           VNum (Fin 1%Q)]);
       ("strokeColor", VArr [VNum (Fin 255%Q); VNum (Fin 255%Q); VNum (Fin 255%Q);
                             VNum (Fin 1%Q)]);
       ("strokeWidth", VNum (Fin (3 # 2)%Q));
       ("zIndex", VNum (Inf false))].
Proof.
  intros Hinj.
  assert (forall a b, a <> b -> GeometryType a <> GeometryType b) as Hne.
  { intros a b Hab E. by apply Hab, Hinj. }
  unfold defaultEditStyle.
  repeat (rewrite bind_run;
          cbn [alloc set modify get gets ret arr_concat map concat app];
          rewrite ?length_app, <- ?app_assoc; cbn [length app];
          rewrite ?heap_set_here, ?heap_get_here;
          repeat (rewrite pget_pset_eq || rewrite pget_pset_ne by (by apply Hne))).
  cbn [ret].
  exists (length h), (length h + 1), (length h + 2), (length h + 3), (length h + 4).
  eexists. split; [reflexivity|].
  split; [by eexists|].
  split.
  { repeat (apply NoDup_cons_2; [rewrite ?elem_of_cons, elem_of_nil; lia|]).
    apply NoDup_nil_2. }
  split.
  { rewrite length_app. simpl. repeat (apply Forall_cons; split; [lia|]). apply Forall_nil_2. }
  split.
  { intros g. rewrite heap_get_here.
    destruct g;
      repeat (rewrite pget_pset_eq || rewrite pget_pset_ne by (by apply Hne));
      reflexivity. }
  rewrite !heap_props_beyond. by vm_compute.
Qed.

(** X12: [defaultStyle] yields an array with one record that is new at
    each call, and the record compiles: [createStyle] builds from it a style
    with a fill of the default colour, a stroke of the parsed default colour
    and width 1.25, a circle of radius 5 as image, and no text. *)
Theorem defaultStyle_compiles (h : heap) :
  isNumeric (VNum (Fin 5%Q)) = true ->
  exists l h1 r h' opts,
    defaultStyle h = Ret (VArr [VRef l]) h1 /\
    h `prefix_of` h1 /\ h !! l = None /\
    createStyle l h1 = Ret (VRef r) h' /\
    h1 `prefix_of` h' /\
    h' !! r = Some (Instance CStyle opts []) /\
    denotes h1 h' (pget opts "fill")
      (Built CFill
         [("color", VArr [VNum (Fin 255%Q); VNum (Fin 255%Q); VNum (Fin 255%Q);
                          VNum (Fin (2 # 5)%Q)])]) /\
    denotes h1 h' (pget opts "stroke")
      (Built CStroke
         [("color", parseColor "#3399cc"); ("width", VNum (Fin (5 # 4)%Q))]) /\
    pget opts "text" = VUndefined /\
    exists image io,
      pget opts "image" = VRef image /\
      h' !! image = Some (Instance CCircle io []) /\
      pget io "radius" = VNum (Fin 5%Q).
Proof.
  intros Hnum. unfold defaultStyle. rewrite bind_run. cbn [alloc ret].
  set (record := [("fillColor", _); _; _; _]).
  set (h1 := h ++ [Plain record]).
  assert (length h < length h1) as Hl by (unfold h1; rewrite length_app; simpl; lia).
  assert (heap_props h1 (length h) = record) as Hprops by apply heap_props_here.
  assert (forall k, heap_get h1 (length h) k = pget record k) as Hget.
  { intros k. unfold heap_get. by rewrite Hprops. }
  assert (image_ctor h1 (length h) = CCircle) as Hctor.
  { unfold image_ctor. by rewrite !Hget. }
  pose proof (createStyle_parts h1 (length h) Hl) as Hparts.
  cbn zeta in Hparts.
  destruct (createStyle (length h) h1) as [v h'|e h'] eqn:Hrun.
  2:{ destruct Hparts as (_ & _ & _ & Hicon & _).
      - apply closed_record_values. rewrite Hprops. by repeat constructor.
      - unfold no_keys, h1. rewrite lookup_app_r by done. by rewrite Nat.sub_diag.
      - by rewrite Hctor in Hicon. }
  destruct Hparts
    as (text & fill & stroke & image & r & -> & Hp & Hr & Hf & Hs & Ht & Hi).
  { apply closed_record_values. rewrite Hprops. by repeat constructor. }
  { unfold no_keys, h1. rewrite lookup_app_r by done. by rewrite Nat.sub_diag. }
  exists (length h), h1, r, h'. eexists. split; [reflexivity|].
  split; [by eexists|]. split; [by apply lookup_ge_None_2|].
  split; [exact Hrun|]. split; [exact Hp|]. split; [exact Hr|].
  unfold fill_view, stroke_view in *. rewrite Hctor, ?Hget, ?Hprops in *.
  split; [exact Hf|]. split; [exact Hs|]. split; [by apply Ht|].
  change (pget record "imageRadius") with (VNum (Fin 5%Q)) in Hi. rewrite Hnum in Hi.
  destruct Hi as (ri & f & s & -> & _ & Hri).
  eexists ri, _. split; [reflexivity|]. split; [exact Hri|].
  unfold image_options. rewrite Hctor, Hprops. cbn [image_aliases circle_aliases map fst snd].
  by rewrite Hget.
Qed.

End Compilers.

(** * The claims on sample records *)

(** The record [{ foo: 1 }] holds no style field, yet a [Style] is built
    for it, with every option undefined. *)
Lemma createStyle_irrelevant_key :
  createStyle parseColor_red isNumeric_number toStr_string iconError_sample 0 heap_foo =
    Ret (VRef 4)
      (heap_foo ++
       [Plain []; Plain [];
        Plain [("text", VUndefined); ("fill", VUndefined); ("stroke", VUndefined);
               ("image", VUndefined); ("geometry", VUndefined);
               ("zIndex", VUndefined); ("renderer", VUndefined)];
        Instance CStyle
          [("text", VUndefined); ("fill", VUndefined); ("stroke", VUndefined);
           ("image", VUndefined); ("geometry", VUndefined);
           ("zIndex", VUndefined); ("renderer", VUndefined)] []]).
Proof. reflexivity. Qed.

Lemma createStyle_builds_witness :
  0 < length heap_foo /\ no_keys heap_foo 0 = false /\
  exists r h' opts,
    createStyle parseColor_red isNumeric_number toStr_string iconError_sample 0 heap_foo =
      Ret (VRef r) h' /\
    h' !! r = Some (Instance CStyle opts []) /\
    opts = [("text", VUndefined); ("fill", VUndefined); ("stroke", VUndefined);
            ("image", VUndefined); ("geometry", VUndefined);
            ("zIndex", VUndefined); ("renderer", VUndefined)].
Proof.
  assert (0 < length heap_foo) as Hlen by (simpl; lia).
  split; [exact Hlen|]. split; [reflexivity|].
  destruct (createStyle_builds parseColor_red isNumeric_number toStr_string
              iconError_sample heap_foo 0 Hlen) as (_ & _ & Hbuilds).
  destruct (Hbuilds eq_refl eq_refl eq_refl) as (r & h' & opts & Hrun & _ & Hl & _).
  exists r, h', opts. split; [exact Hrun|]. split; [exact Hl|].
  vm_compute in Hrun. injection Hrun as <- <-.
  vm_compute in Hl. by injection Hl as <-.
Defined.

Ltac refute_memo :=
  let H := fresh "H" in
  intros H; unfold memoizes in H;
  match type of H with
  | forall v h', ?c = _ -> _ =>
      let r := eval vm_compute in c in
      lazymatch r with
      | Ret ?v ?h' =>
          specialize (H v h' ltac:(vm_compute; reflexivity) ltac:(discriminate))
      end
  end;
  vm_compute in H; discriminate.

(** C2, as stated, fails: on the record
    [{ fillColor: 'red', strokeWidth: 2, text: 'hi', imageRadius: 5 }]
    each compiler builds a sub-style, and none of them stores it on the
    record under the compiled key. *)
Lemma compilers_do_not_memoize :
  ~ memoizes (createFillStyle parseColor_red iconError_sample 0 "") 0 "fill" heap_flat /\
  ~ memoizes (createStrokeStyle parseColor_red iconError_sample 0 "") 0 "stroke"
      heap_flat /\
  ~ memoizes (createImageStyle parseColor_red isNumeric_number iconError_sample 0)
      0 "image" heap_flat /\
  ~ memoizes (createTextStyle parseColor_red toStr_string iconError_sample 0)
      0 "text" heap_flat.
Proof. repeat split; refute_memo. Qed.

Lemma identity_accessors_witness :
  getStyleId 0 heap_ids = Ret VUndefined heap_ids /\
  (exists h', setStyleId 0 (VStr "a1") heap_ids = Ret (VRef 0) h' /\
     heap_get h' 0 "id" = VStr "a1") /\
  getStyleId 1 heap_ids = Throw illegal_style heap_ids /\
  setStyleId 1 (VStr "a1") heap_ids = Throw illegal_style heap_ids.
Proof.
  destruct (identity_accessors heap_ids 0 (VStr "a1")) as (_ & _ & _ & Hhas).
  destruct (identity_accessors heap_ids 1 (VStr "a1")) as (_ & _ & Hlacks & _).
  destruct (Hhas eq_refl) as (Hget & h' & Hset & Hid & _).
  destruct (Hlacks eq_refl) as (Hget' & Hset').
  split; [exact Hget|]. split; [by exists h'|]. by split.
Defined.

Lemma initializeStyle_witness :
  (exists h', initializeStyle 0 VUndefined "u-1" heap_ids = Ret (VRef 0) h' /\
     heap_get h' 0 "id" = VStr "u-1") /\
  initializeStyle 1 VUndefined "u-1" heap_ids = Throw illegal_style heap_ids.
Proof.
  destruct (initializeStyle_spec heap_ids 0 VUndefined "u-1") as (Hhas & _).
  destruct (initializeStyle_spec heap_ids 1 VUndefined "u-1") as (_ & Hlacks).
  destruct (Hhas eq_refl) as (h' & Hrun & _ & Hid & _).
  split; [|exact (Hlacks eq_refl)].
  exists h'. split; [exact Hrun|exact (Hid eq_refl)].
Defined.

Lemma compiled_reused_witness :
  createFillStyle parseColor_red iconError_sample 4 "text" heap_compiled =
    Ret (VRef 0) heap_compiled /\
  createStrokeStyle parseColor_red iconError_sample 4 "text" heap_compiled =
    Ret (VRef 1) heap_compiled /\
  createImageStyle parseColor_red isNumeric_number iconError_sample 4 heap_compiled =
    Ret (VRef 2) heap_compiled /\
  createTextStyle parseColor_red toStr_string iconError_sample 4 heap_compiled =
    Ret (VRef 3) heap_compiled.
Proof.
  destruct (compiled_reused parseColor_red isNumeric_number toStr_string
              iconError_sample heap_compiled 4 "text") as (F & S & I & T).
  split; [exact (F eq_refl)|]. split; [exact (S eq_refl)|].
  split; [exact (I eq_refl)|exact (T eq_refl)].
Defined.

Lemma empty_substyle_elided_witness :
  0 < length heap_flat /\
  createFillStyle parseColor_red iconError_sample 0 "textBackground" heap_flat =
    Ret VUndefined (heap_flat ++ [Plain []]) /\
  createStrokeStyle parseColor_red iconError_sample 0 "textBackground" heap_flat =
    Ret VUndefined (heap_flat ++ [Plain []]).
Proof.
  assert (0 < length heap_flat) as Hlen by (simpl; lia).
  destruct (empty_substyle_elided parseColor_red iconError_sample heap_flat 0
              "textBackground" Hlen) as (F & S & _).
  split; [exact Hlen|]. split; [exact (F eq_refl eq_refl)|].
  apply S; [|reflexivity].
  intros k a Hin. simpl in Hin.
  repeat (destruct Hin as [[= <- <-]|Hin]; [reflexivity|]). destruct Hin.
Defined.

Lemma stroke_key_aliasing_witness :
  0 < length heap_flat /\ literal_pattern "" = true /\
  exists opts : props,
    plookup "width" opts = Some (VNum (Fin 2%Q)) /\
    plookup "color" opts = None /\
    createStrokeStyle parseColor_red iconError_sample 0 "" heap_flat =
      match opts with
      | [] => Ret VUndefined (heap_flat ++ [Plain []])
      | _ => Ret (VRef 2) (heap_flat ++ [Plain opts; Instance CStroke opts []])
      end.
Proof.
  assert (0 < length heap_flat) as Hlen by (simpl; lia).
  split; [exact Hlen|]. split; [reflexivity|].
  destruct (stroke_key_aliasing parseColor_red iconError_sample heap_flat 0 "" Hlen
              eq_refl eq_refl) as (opts & Hlook & _ & Hrun).
  exists opts. split; [|split; [|exact Hrun]].
  - apply (Hlook "strokeWidth" "width"). simpl. tauto.
  - apply (Hlook "strokeColor" "color"). simpl. tauto.
Defined.

(** C8, as stated for every prefix, fails at the prefix [$]: the pattern
    [$Stroke] asks for the end of the name before [Stroke] and so matches
    nowhere; on the record [{ $StrokeColor: 'red' }] the stroke is built
    with the option [$StrokeColor], holding the string as it is, and has
    no [color]. *)
Lemma stroke_keys_not_renamed :
  createStrokeStyle parseColor_red iconError_sample 0 "$" heap_dollar =
    Ret (VRef 2)
      (heap_dollar ++ [Plain [("$StrokeColor", VStr "red")];
                       Instance CStroke [("$StrokeColor", VStr "red")] []]) /\
  ~ renames parseColor_red (createStrokeStyle parseColor_red iconError_sample 0 "$")
      (heap_props heap_dollar 0) "$" heap_dollar.
Proof.
  split; [reflexivity|]. intros H.
  specialize (H 2 _ _ _ eq_refl eq_refl "strokeColor" "color").
  simpl in H. specialize (H ltac:(tauto)). vm_compute in H. discriminate H.
Qed.


Lemma image_dispatch_witness :
  0 < length heap_flat /\
  (exists r h' opts,
     createImageStyle parseColor_red isNumeric_number iconError_sample 0 heap_flat =
       Ret (VRef r) h' /\
     h' !! r = Some (Instance CCircle opts []) /\
     plookup "snapToPixel" opts = Some (VBool true) /\
     plookup "radius" opts = Some (VNum (Fin 5%Q))) /\
  (exists r h' opts,
     createImageStyle parseColor_red isNumeric_number iconError_sample 0 heap_src =
       Ret (VRef r) h' /\
     h' !! r = Some (Instance CIcon opts []) /\
     plookup "src" opts = Some (VStr "a.png")) /\
  (exists h',
     createImageStyle parseColor_red isNumeric_number iconError_sample 0 heap_icon =
       Throw (AssertionError 5) h').
Proof.
  assert (0 < length heap_flat) as Hlen by (simpl; lia).
  split; [exact Hlen|].
  destruct (image_dispatch parseColor_red isNumeric_number iconError_sample
              heap_flat 0 Hlen) as (_ & Hcircle).
  destruct (image_dispatch parseColor_red isNumeric_number iconError_sample
              heap_src 0 Hlen) as (_ & Hsrc).
  destruct (image_dispatch parseColor_red isNumeric_number iconError_sample
              heap_icon 0 Hlen) as (_ & Hicon).
  destruct (Hcircle eq_refl eq_refl)
    as (h1 & o1 & Hrun1 & _ & _ & Hsnap & Hradius & _).
  destruct (Hsrc eq_refl eq_refl) as (h2 & o2 & Hrun2 & _ & _ & _ & _ & _ & Hopts2).
  destruct (Hicon eq_refl eq_refl) as (h3 & o3 & Hrun3 & _).
  split; [|split].
  - exists (S (length h1)), (h1 ++ [Plain o1; Instance CCircle o1 []]), o1.
    split; [exact Hrun1|]. split; [apply lookup_built|].
    split; [exact Hsnap|]. exact (Hradius eq_refl eq_refl eq_refl).
  - destruct (Hopts2 eq_refl) as (Hs & Hi).
    cbv zeta in Hrun2. unfold rejected, iconError_sample in Hrun2.
    rewrite (pget_lookup _ _ _ Hs), (pget_lookup _ _ _ Hi) in Hrun2.
    exists (S (length h2)), (h2 ++ [Plain o2; Instance CIcon o2 []]), o2.
    split; [exact Hrun2|]. split; [apply lookup_built|exact Hs].
  - destruct (rejected _ _ o3) as [e|].
    + pose proof Hrun3 as Hc. vm_compute in Hc. injection Hc as <- _.
      eexists. exact Hrun3.
    + vm_compute in Hrun3. discriminate Hrun3.
Defined.

(** C9, as stated, fails on the record [{ image: 'x' }]: the [image] is not
    empty and is no image style, the [Icon] constructor is called, and it
    throws, for want of an [imgSize]; no [Icon] comes back. *)
Lemma icon_not_constructed :
  is_empty heap_icon (heap_get heap_icon 0 "image") = false /\
  instance_of heap_icon (heap_get heap_icon 0 "image") CImage = false /\
  ~ constructs (createImageStyle parseColor_red isNumeric_number iconError_sample 0)
      CIcon heap_icon.
Proof.
  split; [reflexivity|]. split; [reflexivity|].
  intros (r & h' & opts & H & _). vm_compute in H. discriminate H.
Qed.

Lemma prefix_fallback_witness :
  0 < length heap_prefixed /\ closed_record heap_prefixed 0 /\
  (exists r h' opts,
     createTextStyle parseColor_red toStr_string iconError_sample 0 heap_prefixed =
       Ret (VRef r) h' /\
     h' !! r = Some (Instance CText opts []) /\
     denotes heap_prefixed h' (pget opts "fill") (Built CFill [("color", blue)]) /\
     denotes heap_prefixed h' (pget opts "stroke")
       (Built CStroke [("width", VNum (Fin 2%Q))]) /\
     pget opts "backgroundFill" = VUndefined /\
     pget opts "backgroundStroke" = VUndefined) /\
  (exists h' opts,
     createImageStyle parseColor_red isNumeric_number iconError_sample 0 heap_prefixed =
       Ret (VRef (S (length h'))) (h' ++ [Plain opts; Instance CCircle opts []]) /\
     denotes heap_prefixed h' (pget opts "fill") (Built CFill [("color", red)]) /\
     denotes heap_prefixed h' (pget opts "stroke")
       (Built CStroke [("width", VNum (Fin 3%Q))])).
Proof.
  assert (0 < length heap_prefixed) as Hlen by (simpl; lia).
  assert (closed_record heap_prefixed 0) as Hclosed.
  { apply closed_record_values. simpl. repeat constructor. }
  split; [exact Hlen|]. split; [exact Hclosed|].
  destruct (prefix_fallback parseColor_red isNumeric_number toStr_string
              iconError_sample heap_prefixed 0 Hlen Hclosed) as (Htext & Himage).
  destruct (Htext eq_refl eq_refl) as (r & h' & opts & Hrun & Hl & Hf & Hs & Hbf & Hbs).
  destruct (Himage eq_refl eq_refl) as (hi & oi & Hruni & _ & Hfi & Hsi).
  split.
  - exists r, h', opts. split; [exact Hrun|]. split; [exact Hl|].
    split; [exact Hf|]. split; [exact Hs|]. split; [exact Hbf|exact Hbs].
  - exists hi, oi. split; [exact Hruni|]. split; [exact Hfi|exact Hsi].
Defined.

(** * The further properties on sample records *)

Lemma text_key_aliasing_witness :
  0 < length heap_flat /\
  exists r h' opts,
    createTextStyle parseColor_red toStr_string iconError_sample 0 heap_flat =
      Ret (VRef r) h' /\
    h' !! r = Some (Instance CText opts []) /\
    plookup "text" opts = Some (VStr "hi") /\
    plookup "scale" opts = Some VUndefined /\
    plookup "font" opts = Some (VStr "normal").
Proof.
  assert (0 < length heap_flat) as Hlen by (simpl; lia).
  split; [exact Hlen|].
  destruct (text_key_aliasing parseColor_red toStr_string iconError_sample heap_flat 0
              Hlen) as (_ & Hbuilt).
  destruct (Hbuilt eq_refl eq_refl) as (r & h' & opts & Hrun & _ & Hl & Hflat & Hfont & _).
  exists r, h', opts. split; [exact Hrun|]. split; [exact Hl|].
  split; [|split; [|exact Hfont]].
  - apply (Hflat "text" "text"). simpl. tauto.
  - apply (Hflat "textScale" "scale"). simpl. tauto.
Defined.

Lemma image_options_spread_witness :
  0 < length heap_flat /\
  exists h' opts,
    createImageStyle parseColor_red isNumeric_number iconError_sample 0 heap_flat =
      Ret (VRef (S (length h'))) (h' ++ [Plain opts; Instance CCircle opts []]) /\
    plookup "radius" opts = Some (VNum (Fin 5%Q)) /\
    plookup "text" opts = Some (VStr "hi") /\
    plookup "strokeWidth" opts = Some (VNum (Fin 2%Q)).
Proof.
  assert (0 < length heap_flat) as Hlen by (simpl; lia).
  split; [exact Hlen|].
  destruct (image_options_spread parseColor_red isNumeric_number iconError_sample
              heap_flat 0 Hlen eq_refl eq_refl)
    as (h' & opts & Hrun & _ & Halias & Hother).
  exists h', opts. split; [exact Hrun|].
  split; [|split].
  - apply (Halias "imageRadius" "radius"). simpl. tauto.
  - apply (Hother "text"). simpl. intros [H|[H|[H|[H|[]]]]]; discriminate H.
  - apply (Hother "strokeWidth"). simpl. intros [H|[H|[H|[H|[]]]]]; discriminate H.
Defined.

Lemma createStyle_options_witness :
  0 < length heap_flat /\ closed_record heap_flat 0 /\ no_keys heap_flat 0 = false /\
  exists r h' opts,
    createStyle parseColor_red isNumeric_number toStr_string iconError_sample 0 heap_flat =
      Ret (VRef r) h' /\
    h' !! r = Some (Instance CStyle opts []) /\
    denotes heap_flat h' (pget opts "fill") (Built CFill [("color", red)]) /\
    denotes heap_flat h' (pget opts "stroke")
      (Built CStroke [("width", VNum (Fin 2%Q))]) /\
    pget opts "zIndex" = VUndefined /\
    pget opts "geometry" = VUndefined.
Proof.
  assert (0 < length heap_flat) as Hlen by (simpl; lia).
  assert (closed_record heap_flat 0) as Hclosed.
  { apply closed_record_values. simpl. repeat constructor. }
  split; [exact Hlen|]. split; [exact Hclosed|]. split; [reflexivity|].
  pose proof (createStyle_options parseColor_red isNumeric_number toStr_string
                iconError_sample heap_flat 0 Hlen Hclosed eq_refl) as Hopts.
  destruct (createStyle parseColor_red isNumeric_number toStr_string iconError_sample
              0 heap_flat) as [v h'|e h'].
  - destruct Hopts as (r & opts & -> & _ & Hl & Hf & Hs & Hz & _ & Hg & _).
    exists r, h', opts. split; [reflexivity|]. split; [exact Hl|].
    split; [exact Hf|]. split; [exact Hs|]. split; [exact Hz|exact Hg].
  - destruct Hopts as (_ & Hicon & _). vm_compute in Hicon. discriminate Hicon.
Defined.

Lemma substyle_built_iff_witness :
  0 < length heap_undefined /\ literal_pattern "" = true /\
  (exists v h',
     createStrokeStyle parseColor_red iconError_sample 0 "" heap_undefined = Ret v h' /\
     v <> VUndefined) /\
  createFillStyle parseColor_red iconError_sample 0 "" heap_undefined =
    Ret VUndefined (heap_undefined ++ [Plain []]).
Proof.
  assert (0 < length heap_undefined) as Hlen by (simpl; lia).
  split; [exact Hlen|]. split; [reflexivity|].
  destruct (substyle_built_iff parseColor_red iconError_sample heap_undefined 0 ""
              Hlen eq_refl) as (Hfill & Hstroke).
  destruct (Hstroke eq_refl) as (v & h' & Hrun & Hiff & _).
  destruct (Hfill eq_refl) as (vf & hf & Hrunf & Hifff & _).
  split.
  - exists v, h'. split; [exact Hrun|]. apply Hiff.
    exists "strokeWidth", "width". split; [simpl; tauto|]. by eexists.
  - rewrite Hrunf. vm_compute in Hrunf. by injection Hrunf as <- <-.
Defined.

Lemma compiled_twice_witness :
  0 < length heap_flat /\ literal_pattern "" = true /\ closed_record heap_flat 0 /\
  exists h1 r2 h2 opts,
    createFillStyle parseColor_red iconError_sample 0 "" heap_flat = Ret (VRef 2) h1 /\
    createFillStyle parseColor_red iconError_sample 0 "" h1 = Ret (VRef r2) h2 /\
    r2 <> 2 /\
    h2 !! 2 = Some (Instance CFill opts []) /\
    h2 !! r2 = Some (Instance CFill opts []).
Proof.
  assert (0 < length heap_flat) as Hlen by (simpl; lia).
  assert (closed_record heap_flat 0) as Hclosed.
  { apply closed_record_values. simpl. repeat constructor. }
  split; [exact Hlen|]. split; [reflexivity|]. split; [exact Hclosed|].
  destruct (compiled_twice parseColor_red iconError_sample heap_flat 0 "" Hlen eq_refl
              Hclosed) as (Hfill & _).
  destruct (Hfill 2 _ eq_refl ltac:(simpl; lia)) as (r2 & h2 & opts & Hrun & Hne & H1 & H2).
  by eexists _, r2, h2, opts.
Defined.

Lemma cached_by_caller_witness :
  0 < length heap_flat /\ literal_pattern "" = true /\
  exists h1,
    createStrokeStyle parseColor_red iconError_sample 0 "" heap_flat = Ret (VRef 2) h1 /\
    createStrokeStyle parseColor_red iconError_sample 0 ""
      (heap_set 0 "stroke" (VRef 2) h1) =
      Ret (VRef 2) (heap_set 0 "stroke" (VRef 2) h1).
Proof.
  assert (0 < length heap_flat) as Hlen by (simpl; lia).
  split; [exact Hlen|]. split; [reflexivity|].
  destruct (cached_by_caller parseColor_red iconError_sample heap_flat 0 "" Hlen eq_refl)
    as (_ & Hstroke).
  eexists. split; [reflexivity|].
  exact (Hstroke 2 _ eq_refl ltac:(simpl; lia)).
Defined.

Lemma setStyleId_getStyleId_witness :
  has_prop heap_ids 0 "id" = true /\
  exists h',
    setStyleId 0 (VStr "a1") heap_ids = Ret (VRef 0) h' /\
    getStyleId 0 h' = Ret (VStr "a1") h' /\
    setStyleId 0 (VStr "b2") h' = setStyleId 0 (VStr "b2") heap_ids.
Proof.
  split; [reflexivity|].
  destruct (setStyleId_getStyleId heap_ids 0 (VStr "a1") eq_refl)
    as (h' & Hset & Hget & Hagain).
  exists h'. split; [exact Hset|]. split; [exact Hget|exact (Hagain (VStr "b2"))].
Defined.

Lemma initializeStyle_idempotent_witness :
  has_prop heap_ids 0 "id" = true /\
  exists h1,
    initializeStyle 0 VUndefined "u-1" heap_ids = Ret (VRef 0) h1 /\
    initializeStyle 0 (VStr "other") "u-2" h1 = Ret (VRef 0) h1.
Proof.
  split; [reflexivity|].
  destruct (initializeStyle_idempotent heap_ids 0 VUndefined "u-1" eq_refl)
    as (h1 & Hfirst & Hsecond).
  exists h1. split; [exact Hfirst|exact (Hsecond (VStr "other") "u-2")].
Defined.

Lemma defaultEditStyle_shares_witness :
  (forall a b, ol_geometry_type a = ol_geometry_type b -> a = b) /\
  exists styles line1 line2 fill point h',
    defaultEditStyle ol_geometry_type [] = Ret (VRef styles) h' /\
    heap_get h' styles "Polygon" = VArr [VRef fill; VRef line1; VRef line2] /\
    heap_get h' styles "LineString" = VArr [VRef line1; VRef line2] /\
    heap_get h' styles "Point" = VArr [VRef point] /\
    heap_get h' styles "LinearRing" = VUndefined.
Proof.
  assert (forall a b, ol_geometry_type a = ol_geometry_type b -> a = b) as Hinj.
  { intros a b. destruct a, b; simpl; intros E; (reflexivity || discriminate E). }
  split; [exact Hinj|].
  destruct (defaultEditStyle_shares ol_geometry_type [] Hinj)
    as (styles & line1 & line2 & fill & point & h' & Hrun & _ & _ & _ & Hget & _).
  exists styles, line1, line2, fill, point, h'. split; [exact Hrun|].
  split; [exact (Hget POLYGON)|]. split; [exact (Hget LINE_STRING)|].
  split; [exact (Hget POINT)|exact (Hget LINEAR_RING)].
Defined.

Lemma defaultStyle_compiles_witness :
  isNumeric_number (VNum (Fin 5%Q)) = true /\
  exists l h1 r h' opts,
    defaultStyle [] = Ret (VArr [VRef l]) h1 /\
    createStyle parseColor_red isNumeric_number toStr_string iconError_sample l h1 =
      Ret (VRef r) h' /\
    h' !! r = Some (Instance CStyle opts []) /\
    denotes h1 h' (pget opts "stroke")
      (Built CStroke [("color", red); ("width", VNum (Fin (5 # 4)%Q))]).
Proof.
  split; [reflexivity|].
  destruct (defaultStyle_compiles parseColor_red isNumeric_number toStr_string
              iconError_sample [] eq_refl)
    as (l & h1 & r & h' & opts & Hrun & _ & _ & Hstyle & _ & Hl & _ & Hs & _).
  exists l, h1, r, h', opts. split; [exact Hrun|]. split; [exact Hstyle|].
  split; [exact Hl|exact Hs].
Defined.
